(** * Master node of the distributed PageRank computation

    A shallow embedding of the master side of package [node]: the phase
    handlers [masterWait], [masterCollect] and [masterConvergence], the work
    publisher [masterWriteQueue], the result consumer [masterReadQueue] and
    the broadcaster [masterSendUpdateToWorkers], together with the earlier
    revision of [masterCollect] that partitions the graph inline.

    Conventions of the embedding.
    - A Go [float64] is Rocq's primitive [float] (IEEE 754 binary64), so
      every sum, difference, quotient and comparison below rounds and
      compares the way the program does.
    - A Go map is a [gmap]; a nil map and an empty map are both [∅] (the
      program only takes [len] of them and ranges over them).
    - The order in which [range] visits a map is chosen by the runtime and
      may differ from one loop to the next, so every loop whose result
      depends on that order takes it as an argument (a list of keys).
    - A handler yields an [outcome]: it returns nil, returns an error,
      panics, or never returns. *)

From Stdlib Require Import ZArith PrimFloat Lia.
From stdpp Require Import gmap strings list fin_maps.

(** ** Data model *)

(** The phases of the master loop ([Wait], [Map], ... of package [node]).
    The program stores them in an [int32] field; only these five values are
    ever written. *)
Inductive Phase := Wait | Map | Collect | Reduce | Convergence.

Module proto.

(** Modelled from the spec: the generated message types of package [proto]
    are not part of the sources.  An [inLinks] entry is "a light reference
    carrying that source's current rank", "replicated for worker-side
    locality": a value of its own, not the vertex it stands for. *)
Record NodeRef := mkNodeRef { Ref_Rank : float }.

(** Modelled from the spec: a vertex with its rank, its teleport weight [E]
    and the replicas of the ranks of its in-neighbours. *)
Record GraphNode := mkGraphNode {
  Rank : float;
  E : float;
  InLinks : gmap Z NodeRef
}.

(** [proto.State] as the handlers build it: [Graph], [C], [Threshold],
    [Phase] and the worker endpoints [Others]. *)
Record State := mkState {
  Graph : gmap Z GraphNode;
  C : float;
  Threshold : float;
  Phase : Phase;
  Others : list string
}.

(** [proto.Map{InLinks}] and [proto.Reduce{Sum, E}], the two payloads of a job. *)
Record Map := mkMap { Map_InLinks : gmap Z NodeRef }.
Record Reduce := mkReduce { Sum : float; Reduce_E : float }.

(** [proto.Job{Type, MapData, ReduceData}]; [Type] is 0 for Map, 1 for Reduce. *)
Record Job := mkJob {
  JobType : Z;
  MapData : gmap Z Map;
  ReduceData : gmap Z Reduce
}.

End proto.

Module utils.

(** Modelled from the spec: [utils.SafeMap[int32, float64]] is not part of
    the sources.  It is the accumulator "with concurrent increment(k, Δ),
    get(k), keys(), clone() (atomic snapshot), and reset()"; a key that was
    never incremented reads as the zero value. *)
Definition NewSafeMap : gmap Z float := ∅.

Definition Get (k : Z) (m : gmap Z float) : float := default 0%float (m !! k).

Definition Increment (k : Z) (d : float) (m : gmap Z float) : gmap Z float :=
  <[k := (Get k m + d)%float]> m.

Definition Clone (m : gmap Z float) : gmap Z float := m.

Definition Reset (m : gmap Z float) : gmap Z float := ∅.

(** [Keys()] returns every key once, in an order of the runtime's choosing. *)
Definition Keys (m : gmap Z float) (ks : list Z) : Prop := ks ≡ₚ elements (dom m).

End utils.

(** What the master writes to standard output: a [fmt.Printf("%d -> %f\n")]
    line with the rank before formatting, or the prompt that opens a new
    configuration dialogue. *)
Inductive line := RankLine (id : Z) (rank : float) | PromptLine.

(** The master's [Node].  Besides the fields of the program ([State], [Jobs],
    [Responses], [Data]) it records what the node did to the outside world:
    [Work], the messages published to the work queue in order; [Stdout]; and
    [Broadcasts], the number of [go masterSendUpdateToWorkers(n)] statements
    executed.  Counters are [nat]: a Go [int] never overflows on the number
    of vertices, workers or messages of a run. *)
Record Node := mkNode {
  State : proto.State;
  Jobs : nat;
  Responses : nat;
  Data : gmap Z float;
  Work : list proto.Job;
  Stdout : list line;
  Broadcasts : nat
}.

(** The errors [protobuf.Marshal] and [PublishWithContext] can return. *)
Inductive error := MarshalError | PublishError.

(** How a call ends: [Ok] returned nil, [Err] returned an error (with the
    node as it was left), [Panic] for a run-time panic, [Hang] when the call
    never returns (with the node as it stays). *)
Inductive outcome (A : Type) :=
| Ok (a : A)
| Err (e : error) (a : A)
| Panic
| Hang (a : A).
Arguments Ok {A} a.
Arguments Err {A} e a.
Arguments Panic {A}.
Arguments Hang {A} a.

(** ** Field updates *)

Definition setPhase (p : Phase) (n : Node) : Node :=
  let st := State n in
  mkNode (proto.mkState (proto.Graph st) (proto.C st) (proto.Threshold st) p (proto.Others st))
         (Jobs n) (Responses n) (Data n) (Work n) (Stdout n) (Broadcasts n).

Definition setGraph (g : gmap Z proto.GraphNode) (n : Node) : Node :=
  let st := State n in
  mkNode (proto.mkState g (proto.C st) (proto.Threshold st) (proto.Phase st) (proto.Others st))
         (Jobs n) (Responses n) (Data n) (Work n) (Stdout n) (Broadcasts n).

Definition setOthers (o : list string) (n : Node) : Node :=
  let st := State n in
  mkNode (proto.mkState (proto.Graph st) (proto.C st) (proto.Threshold st) (proto.Phase st) o)
         (Jobs n) (Responses n) (Data n) (Work n) (Stdout n) (Broadcasts n).

Definition setData (d : gmap Z float) (n : Node) : Node :=
  mkNode (State n) (Jobs n) (Responses n) d (Work n) (Stdout n) (Broadcasts n).

Definition setJobs (k : nat) (n : Node) : Node :=
  mkNode (State n) k (Responses n) (Data n) (Work n) (Stdout n) (Broadcasts n).

Definition setResponses (k : nat) (n : Node) : Node :=
  mkNode (State n) (Jobs n) k (Data n) (Work n) (Stdout n) (Broadcasts n).

Definition setWork (w : list proto.Job) (n : Node) : Node :=
  mkNode (State n) (Jobs n) (Responses n) (Data n) w (Stdout n) (Broadcasts n).

Definition spawnBroadcast (n : Node) : Node :=
  mkNode (State n) (Jobs n) (Responses n) (Data n) (Work n) (Stdout n) (S (Broadcasts n)).

Definition setRank (r : float) (u : proto.GraphNode) : proto.GraphNode :=
  proto.mkGraphNode r (proto.E u) (proto.InLinks u).

(** The state the handlers install on a reset:
    [&proto.State{Graph: nil, C: 0.0, Threshold: 0.0, Phase: int32(Wait)}];
    [Others] is not named in the literal and so is nil. *)
Definition freshState : proto.State :=
  proto.mkState ∅ 0%float 0%float Wait [].

(** ** Ranging over a map *)

(** The entries a [range] loop over [m] visits when the runtime yields the
    keys in the order [order]. *)
Definition range {A : Type} (m : gmap Z A) (order : list Z) : list (Z * A) :=
  omap (λ k, pair k <$> m !! k) order.

(** [order] is an order in which [range] may visit [m]: every key once. *)
Definition range_order {A : Type} (m : gmap Z A) (order : list Z) : Prop :=
  order ≡ₚ elements (dom m).

(** A float accumulation [acc := 0; for x in l { acc += x }]. *)
Definition fsum (l : list float) : float :=
  foldl (λ acc x, (acc + x)%float) 0%float l.

(** ** The work publisher: [masterWriteQueue] *)

(** [numberOfJobs := len(Others); if numberOfJobs >= len(Graph) { numberOfJobs = len(Graph) }] *)
Definition numberOfJobs (n : Node) : nat :=
  let k := length (proto.Others (State n)) in
  if bool_decide (size (proto.Graph (State n)) ≤ k)
  then size (proto.Graph (State n)) else k.

(** The partition loop
    [for id, node := range Graph { subGraphs[i][id] = node; i = (i + 1) % K }].
    Indexing [subGraphs[i]] out of range panics ([None]), and so would the
    remainder by zero. *)
Fixpoint assign {A : Type} (K : nat) (entries : list (Z * A)) (i : nat)
    (subGraphs : list (gmap Z A)) : option (list (gmap Z A)) :=
  match entries with
  | [] => Some subGraphs
  | (id, node) :: rest =>
      match subGraphs !! i with
      | None => None
      | Some sg =>
          match K with
          | O => None
          | S _ => assign K rest ((i + 1) mod K) (<[i := <[id := node]> sg]> subGraphs)
          end
      end
  end.

(** [subGraphs := make([]map[int32]*proto.GraphNode, K)] followed by the
    partition loop over the graph in the order [order]. *)
Definition partition {A : Type} (K : nat) (g : gmap Z A) (order : list Z)
    : option (list (gmap Z A)) :=
  assign K (range g order) 0 (replicate K ∅).

(** The publishing loop.  [broker idx job] tells how serializing and
    publishing the [idx]-th job of the batch ends: [None] when both succeed,
    the error otherwise (a marshal error publishes nothing, like a publish
    error).  The result is the work queue afterwards and the error that
    stopped the loop, if any. *)
Fixpoint publish (fn : gmap Z proto.GraphNode → proto.Job)
    (broker : nat → proto.Job → option error) (idx : nat)
    (subGraphs : list (gmap Z proto.GraphNode)) (work : list proto.Job)
    : list proto.Job * option error :=
  match subGraphs with
  | [] => (work, None)
  | sg :: rest =>
      let job := fn sg in
      match broker idx job with
      | Some e => (work, Some e)
      | None => publish fn broker (S idx) rest (work ++ [job])
      end
  end.

Definition masterWriteQueue (order : list Z)
    (broker : nat → proto.Job → option error)
    (fn : gmap Z proto.GraphNode → proto.Job) (n : Node) : outcome Node :=
  let K := numberOfJobs n in
  match partition K (proto.Graph (State n)) order with
  | None => Panic
  | Some subGraphs =>
      match publish fn broker 0 subGraphs (Work n) with
      | (work, Some e) => Err e (setWork work n)
      | (work, None) => Ok (setJobs K (setWork work n))
      end
  end.

(** ** The phase handlers *)

(** The job [masterWait] builds for a subgraph:
    [proto.Job{Type: 0, MapData: id ↦ {InLinks}, ReduceData: {}}]. *)
Definition mapJob (m : gmap Z proto.GraphNode) : proto.Job :=
  proto.mkJob 0 ((λ v, proto.mkMap (proto.InLinks v)) <$> m) ∅.

(** The job [masterCollect] builds for a subgraph from the snapshot [data]:
    [proto.Job{Type: 1, ReduceData: id ↦ {Sum: data[id], E}, MapData: {}}]. *)
Definition reduceJob (data : gmap Z float) (m : gmap Z proto.GraphNode) : proto.Job :=
  proto.mkJob 1 ∅
    (map_imap (λ id v, Some (proto.mkReduce (default 0%float (data !! id)) (proto.E v))) m).

(** The lines [for id, v := range Graph { fmt.Printf("%d -> %f\n", id, v.Rank) }] prints. *)
Definition printRanks (g : gmap Z proto.GraphNode) (order : list Z) : list line :=
  (λ e, RankLine e.1 (proto.Rank e.2)) <$> range g order.

(** [masterWait].  [SingleNodePageRank] (package [graph], not part of the
    sources) updates the graph in place and may not return ([None]): no
    iteration cap is known.  [cfg] is what the configuration dialogue ends
    up with: the two floats read from standard input and the graph that
    [LoadGraphResource] finally loads.  The statement
    [go masterSendUpdateToWorkers(n)] starts the broadcaster beside the
    handler, which does not wait for it; the node only records the start. *)
Definition masterWait
    (SingleNodePageRank : gmap Z proto.GraphNode → float → float → option (gmap Z proto.GraphNode))
    (cfg : float * float * gmap Z proto.GraphNode)
    (printOrder order : list Z)
    (broker : nat → proto.Job → option error) (n : Node) : outcome Node :=
  let st := State n in
  if bool_decide (0 < size (proto.Graph st)) then
    if bool_decide (length (proto.Others st) = 0) then
      match SingleNodePageRank (proto.Graph st) (proto.C st) (proto.Threshold st) with
      | None => Hang n
      | Some g =>
          Ok (mkNode freshState 0 0 utils.NewSafeMap (Work n)
                     (Stdout n ++ printRanks g printOrder) (Broadcasts n))
      end
    else
      match masterWriteQueue order broker mapJob (spawnBroadcast n) with
      | Ok n' => Ok (setPhase Map n')
      | r => r
      end
  else
    let '(c, threshold, g) := cfg in
    Ok (mkNode (proto.mkState g c threshold (proto.Phase st) (proto.Others st))
               (Jobs n) (Responses n) utils.NewSafeMap (Work n)
               (Stdout n ++ [PromptLine]) (Broadcasts n)).

(** The map [ranks] that the degenerate branch of [masterCollect] fills:
    [ranks[id] = C*Data.Get(id) + (1-C)*node.E]. *)
Definition localRanks (n : Node) : gmap Z float :=
  let c := proto.C (State n) in
  map_imap (λ id node, Some (c * utils.Get id (Data n) + (1 - c) * proto.E node)%float)
           (proto.Graph (State n)).

(** [masterCollect].  In the degenerate branch [ranks] is a local variable:
    it is filled and goes out of scope at the [return]. *)
Definition masterCollect (order : list Z)
    (broker : nat → proto.Job → option error) (n : Node) : outcome Node :=
  if bool_decide (length (proto.Others (State n)) = 0) then
    let ranks := localRanks n in
    Ok (setPhase Convergence n)
  else
    let n1 := spawnBroadcast n in
    let data := utils.Clone (Data n1) in
    let n2 := setData (utils.Reset (Data n1)) n1 in
    match masterWriteQueue order broker (reduceJob data) n2 with
    | Ok n' => Ok (setPhase Reduce n')
    | r => r
    end.

(** The first loop of [masterConvergence]:
    [for _, id := range Data.Keys() { newRank := Data.Get(id);
       oldRank := Graph[id].Rank; convergence += math.Abs(newRank - oldRank);
       Graph[id].Rank = newRank }].
    [Graph[id]] is a nil pointer when [id] is not a vertex, and reading its
    field panics ([None]). *)
Fixpoint commitRanks (data : gmap Z float) (keys : list Z) (convergence : float)
    (g : gmap Z proto.GraphNode) : option (float * gmap Z proto.GraphNode) :=
  match keys with
  | [] => Some (convergence, g)
  | id :: rest =>
      let newRank := utils.Get id data in
      match g !! id with
      | None => None
      | Some node =>
          let oldRank := proto.Rank node in
          commitRanks data rest (convergence + abs (newRank - oldRank))%float
                      (<[id := setRank newRank node]> g)
      end
  end.

(** Every in-link of every vertex names a vertex of the graph. *)
Definition linksClosed (g : gmap Z proto.GraphNode) : Prop :=
  map_Forall (λ _ u, dom (proto.InLinks u) ⊆ dom g) g.

(** One vertex of the second loop: [for j, v := range u.InLinks { v.Rank = Graph[j].Rank }]. *)
Definition refreshNode (g : gmap Z proto.GraphNode) (u : proto.GraphNode) : proto.GraphNode :=
  proto.mkGraphNode (proto.Rank u) (proto.E u)
    (map_imap (λ j _, (λ w, proto.mkNodeRef (proto.Rank w)) <$> g !! j) (proto.InLinks u)).

(** The second loop of [masterConvergence].  Each iteration writes one
    replica and reads the rank of one vertex, which this loop never writes,
    so the order of the visits does not matter; [Graph[j]] is nil, and the
    read panics ([None]), when some in-link names no vertex. *)
Definition refreshInLinks (g : gmap Z proto.GraphNode) : option (gmap Z proto.GraphNode) :=
  if decide (linksClosed g) then Some (refreshNode g <$> g) else None.

(** The last loop of [masterConvergence]:
    [for id, v := range Graph { Graph[id].Rank /= rankSum; fmt.Printf("%d -> %f\n", id, v.Rank) }];
    [v] is the pointer stored at [id], so the line shows the divided rank. *)
Fixpoint normalizeAndPrint (rankSum : float) (order : list Z)
    (g : gmap Z proto.GraphNode) (out : list line) : gmap Z proto.GraphNode * list line :=
  match order with
  | [] => (g, out)
  | id :: rest =>
      match g !! id with
      | None => normalizeAndPrint rankSum rest g out
      | Some v =>
          let v' := setRank (proto.Rank v / rankSum)%float v in
          normalizeAndPrint rankSum rest (<[id := v']> g) (out ++ [RankLine id (proto.Rank v')])
      end
  end.

(** [masterConvergence]; [keys] is what [Data.Keys()] returns, [sumOrder] and
    [printOrder] are the orders of the two loops over the graph in the
    branch that terminates the run. *)
Definition masterConvergence (keys sumOrder printOrder : list Z) (n : Node) : outcome Node :=
  match commitRanks (Data n) keys 0%float (proto.Graph (State n)) with
  | None => Panic
  | Some (convergence, g1) =>
      match refreshInLinks g1 with
      | None => Panic
      | Some g2 =>
          if (proto.Threshold (State n) <? convergence)%float then
            Ok (setData utils.NewSafeMap (setPhase Wait (setGraph g2 n)))
          else
            let rankSum := fsum ((λ e, proto.Rank e.2) <$> range g2 sumOrder) in
            let '(_, out) := normalizeAndPrint rankSum printOrder g2 (Stdout n) in
            Ok (mkNode freshState 0 0 utils.NewSafeMap (Work n) out (Broadcasts n))
      end
  end.

(** What one pass of the driver loop needs from outside the node. *)
Record Env := mkEnv {
  envPageRank : gmap Z proto.GraphNode → float → float → option (gmap Z proto.GraphNode);
  envConfig : float * float * gmap Z proto.GraphNode;
  envKeys : list Z;
  envSumOrder : list Z;
  envPrintOrder : list Z;
  envOrder : list Z;
  envBroker : nat → proto.Job → option error
}.

(** One pass of the [for] loop of [masterUpdate]: the [switch] on the phase.
    An error of a handler goes to [utils.FailOnError], which ends the run. *)
Definition masterUpdate (env : Env) (n : Node) : outcome Node :=
  match proto.Phase (State n) with
  | Wait => masterWait (envPageRank env) (envConfig env) (envPrintOrder env)
                       (envOrder env) (envBroker env) n
  | Map =>
      if bool_decide (Jobs n = Responses n)
      then Ok (setPhase Collect (setResponses 0 n)) else Ok n
  | Collect => masterCollect (envOrder env) (envBroker env) n
  | Reduce =>
      if bool_decide (Jobs n = Responses n)
      then Ok (setPhase Convergence (setResponses 0 n)) else Ok n
  | Convergence => masterConvergence (envKeys env) (envSumOrder env) (envPrintOrder env) n
  end.

(** ** The broadcaster: [masterSendUpdateToWorkers] *)

(** How a worker answers: [utils.NodeCall] fails, the [StateUpdate] RPC
    fails, or the worker acknowledges the update. *)
Inductive PeerReply := Unreachable | RpcFails | Acks.

(** The loop over [Others].  [crashed] is made with [make(chan int)]: it has
    no buffer, and its only receiver is the collecting loop that the same
    goroutine reaches after this one.  A send [crashed <- i] therefore never
    completes: the loop stops there for good ([None]). *)
Fixpoint contactWorkers (peers : string → PeerReply) (i : nat) (others : list string)
    : option unit :=
  match others with
  | [] => Some tt
  | v :: rest =>
      match peers v with
      | Unreachable => None
      | RpcFails => None
      | Acks => contactWorkers peers (S i) rest
      end
  end.

(** [for i, v := range Others { if !crashedWorkers[i] { newWorkers = append(newWorkers, v) } }] *)
Definition removeCrashed (crashedWorkers : gset nat) (others : list string) : list string :=
  omap (λ iv, if bool_decide (iv.1 ∈ crashedWorkers) then None else Some iv.2)
       (imap pair others).

(** [masterSendUpdateToWorkers]: when the loop runs to its end the channel is
    closed with nothing ever sent on it, [crashedWorkers] stays empty, and
    [Others] is rebuilt from it. *)
Definition masterSendUpdateToWorkers (peers : string → PeerReply) (n : Node) : outcome Node :=
  match contactWorkers peers 0 (proto.Others (State n)) with
  | None => Hang n
  | Some _ =>
      let crashedWorkers : gset nat := ∅ in
      Ok (setOthers (removeCrashed crashedWorkers (proto.Others (State n))) n)
  end.

(** ** The membership broadcaster: [masterSendOtherStateUpdate] *)

(** [masterSendOtherStateUpdate]: the loop and the collection of
    [masterSendUpdateToWorkers], with the RPC [OtherStateUpdate] (which
    carries [Others] only) in place of [StateUpdate].  [peers] tells how
    each worker answers that RPC.  The channel [crashed] is unbuffered here
    too, so [contactWorkers] describes this loop as well. *)
Definition masterSendOtherStateUpdate (peers : string → PeerReply) (n : Node) : outcome Node :=
  match contactWorkers peers 0 (proto.Others (State n)) with
  | None => Hang n
  | Some _ =>
      let crashedWorkers : gset nat := ∅ in
      Ok (setOthers (removeCrashed crashedWorkers (proto.Others (State n))) n)
  end.

(** ** The result consumer: [masterReadQueue] *)

(** A message taken from the result queue, as far as the consumer can tell
    it apart: what [protobuf.Unmarshal] makes of its body ([None] when it
    fails, otherwise [result.Values] in the order the [range] loop visits
    it) and whether [msg.Ack(false)] succeeds. *)
Record Delivery := mkDelivery {
  Body : option (list (Z * float));
  AckOk : bool
}.

(** Where the consumer goroutine stands: waiting on [msgs]; inside the loop
    over [result.Values] of [d], with the pairs already folded and those
    still to come (the acknowledgement follows the last pair); or between
    the successful acknowledgement and [n.Responses += 1]. *)
Inductive Pc :=
| AwaitMsg
| Folding (d : Delivery) (folded rest : list (Z * float))
| Counting (d : Delivery).

(** The consumer with the two fields of the node it writes, the messages
    still in the queue and those it is done with (acknowledged or
    negatively acknowledged), oldest first. *)
Record Consumer := mkConsumer {
  cData : gmap Z float;
  cResponses : nat;
  cPc : Pc;
  cInbox : list Delivery;
  cHandled : list Delivery
}.

(** One action of the loop [for msg := range msgs { ... }].  Each case is one
    statement of the body, so the states in between are those the phase
    driver can observe.  [utils.FailOnNack] is not part of the sources: as
    the spec has it, the message is negatively acknowledged and dropped, and
    the loop goes on with the next one. *)
Definition consumer_step (c : Consumer) : Consumer :=
  match cPc c with
  | AwaitMsg =>
      match cInbox c with
      | [] => c
      | d :: inbox =>
          match Body d with
          | None =>
              mkConsumer (cData c) (cResponses c) AwaitMsg inbox (cHandled c ++ [d])
          | Some values =>
              mkConsumer (cData c) (cResponses c) (Folding d [] values) inbox (cHandled c)
          end
      end
  | Folding d folded ((id, v) :: rest) =>
      mkConsumer (utils.Increment id v (cData c)) (cResponses c)
                 (Folding d (folded ++ [(id, v)]) rest) (cInbox c) (cHandled c)
  | Folding d folded [] =>
      if AckOk d
      then mkConsumer (cData c) (cResponses c) (Counting d) (cInbox c) (cHandled c)
      else mkConsumer (cData c) (cResponses c) AwaitMsg (cInbox c) (cHandled c ++ [d])
  | Counting d =>
      mkConsumer (cData c) (cResponses c + 1) AwaitMsg (cInbox c) (cHandled c ++ [d])
  end.

(** The consumer after [k] actions. *)
Fixpoint consumer_run (k : nat) (c : Consumer) : Consumer :=
  match k with
  | O => c
  | S k' => consumer_run k' (consumer_step c)
  end.

(** The consumer at the start of a phase: [Responses] is zero, the
    accumulator holds [data], nothing has been taken from [inbox] yet. *)
Definition consumer_start (data : gmap Z float) (inbox : list Delivery) : Consumer :=
  mkConsumer data 0 AwaitMsg inbox [].

(** The pairs of a message ([result.Values]; none when decoding fails). *)
Definition values (d : Delivery) : list (Z * float) := default [] (Body d).

(** A message that reached [n.Responses += 1]: decoded and acknowledged. *)
Definition counted (d : Delivery) : bool :=
  match Body d with Some _ => AckOk d | None => false end.

(** The accumulator after the calls [Increment(id, v)] for the pairs of [l],
    in that order. *)
Definition foldInto (l : list (Z * float)) (data : gmap Z float) : gmap Z float :=
  foldl (λ m p, utils.Increment p.1 p.2 m) data l.

(** The pairs the consumer has folded of the message it is working on. *)
Definition inProgress (pc : Pc) : list (Z * float) :=
  match pc with
  | AwaitMsg => []
  | Folding _ folded _ => folded
  | Counting d => values d
  end.

(** ** The earlier revision of [masterCollect] *)

Module Legacy.

(** The vertex of the earlier revision: [Rank], [EValue] and the out-links,
    which the master only carries along. *)
Record GraphNode := mkGraphNode {
  Rank : float;
  EValue : float;
  OutLinks : list Z
}.

(** [proto.State] of the earlier revision, which also holds the accumulator
    [Data] (a plain map) and the job counter [Jobs]. *)
Record ProtoState := mkState {
  Graph : gmap Z GraphNode;
  C : float;
  Threshold : float;
  Phase : Phase;
  Others : list string;
  Data : gmap Z float;
  Jobs : Z
}.

(** The node: its state and the contents of the work queue. *)
Record Node := mkNode {
  State : ProtoState;
  Work : list proto.Job
}.

(** [proto.Job{Type: 1, ReduceData: id ↦ {Sum: Data[id], EValue}, MapData: {}}] *)
Definition reduceJob (data : gmap Z float) (m : gmap Z GraphNode) : proto.Job :=
  proto.mkJob 1 ∅
    (map_imap (λ id v, Some (proto.mkReduce (default 0%float (data !! id)) (EValue v))) m).

(** [numberOfJobs := len(Others); if numberOfJobs >= len(Graph) { numberOfJobs = len(Graph) - 1 }] *)
Definition numberOfJobs (st : ProtoState) : Z :=
  let k := Z.of_nat (length (Others st)) in
  if bool_decide (Z.of_nat (size (Graph st)) ≤ k)%Z
  then (Z.of_nat (size (Graph st)) - 1)%Z else k.

(** The publishing loop of this revision; on an error it empties the work
    queue ([utils.EmptyQueue]) before it returns. *)
Fixpoint publish (data : gmap Z float) (broker : nat → proto.Job → option error)
    (idx : nat) (subGraphs : list (gmap Z GraphNode)) (work : list proto.Job)
    : list proto.Job * option error :=
  match subGraphs with
  | [] => (work, None)
  | sg :: rest =>
      let job := reduceJob data sg in
      match broker idx job with
      | Some e => ([], Some e)
      | None => publish data broker (S idx) rest (work ++ [job])
      end
  end.

(** [masterCollect] of the earlier revision.  [make] panics on a negative
    length; the partition loop is the one of [masterWriteQueue]. *)
Definition masterCollect (order : list Z)
    (broker : nat → proto.Job → option error) (n : Node) : outcome Node :=
  let st := State n in
  if bool_decide (length (Others st) = 0) then
    let ranks : gmap Z float :=
      map_imap (λ id node,
        Some (C st * default 0%float (Data st !! id) + (1 - C st) * EValue node)%float)
        (Graph st) in
    Ok (mkNode (mkState (Graph st) (C st) (Threshold st) Convergence (Others st)
                        (Data st) (Jobs st)) (Work n))
  else
    let k := numberOfJobs st in
    if bool_decide (k < 0)%Z then Panic
    else
      match partition (Z.to_nat k) (Graph st) order with
      | None => Panic
      | Some subGraphs =>
          match publish (Data st) broker 0 subGraphs (Work n) with
          | (work, Some e) => Err e (mkNode st work)
          | (work, None) =>
              Ok (mkNode (mkState (Graph st) (C st) (Threshold st) Reduce (Others st)
                                  (Data st) k) work)
          end
      end.

End Legacy.

(** ** The earlier revision: [WriteGraphToQueue] and [masterConvergence] *)

Module LegacyRun.

(** [n.Role]. *)
Inductive Role := Master | Worker.

(** [proto.Map{Rank, OutLinks}], the payload of a Map job in this revision. *)
Record MapEntry := mkMapEntry { Map_Rank : float; Map_OutLinks : list Z }.

(** [proto.Job{Type, MapData, ReduceData}] of this revision. *)
Record Job := mkJob {
  JobType : Z;
  MapData : gmap Z MapEntry;
  ReduceData : gmap Z proto.Reduce
}.

(** The node: its state, its role, the contents of the work queue and the
    number of [go n.masterSendUpdateToWorkers()] statements executed. *)
Record Node := mkNode {
  State : Legacy.ProtoState;
  NodeRole : Role;
  Work : list Job;
  Broadcasts : nat
}.

(** [proto.Job{Type: 0, MapData: id ↦ {Rank, OutLinks}, ReduceData: {}}] *)
Definition mapJob (m : gmap Z Legacy.GraphNode) : Job :=
  mkJob 0 ((λ v, mkMapEntry (Legacy.Rank v) (Legacy.OutLinks v)) <$> m) ∅.

(** The publishing loop of [WriteGraphToQueue]; on an error it empties the
    work queue ([utils.EmptyQueue]) before it returns. *)
Fixpoint publish (broker : nat → Job → option error) (idx : nat)
    (subGraphs : list (gmap Z Legacy.GraphNode)) (work : list Job)
    : list Job * option error :=
  match subGraphs with
  | [] => (work, None)
  | sg :: rest =>
      let job := mapJob sg in
      match broker idx job with
      | Some e => ([], Some e)
      | None => publish broker (S idx) rest (work ++ [job])
      end
  end.

(** [WriteGraphToQueue]: nothing for a worker; for the master the number of
    subgraphs is that of [masterCollect] ([Legacy.numberOfJobs]) and the
    partition loop the same. *)
Definition WriteGraphToQueue (order : list Z) (broker : nat → Job → option error)
    (n : Node) : outcome Node :=
  match NodeRole n with
  | Worker => Ok n
  | Master =>
      let st := State n in
      let k := Legacy.numberOfJobs st in
      if bool_decide (k < 0)%Z then Panic
      else
        match partition (Z.to_nat k) (Legacy.Graph st) order with
        | None => Panic
        | Some subGraphs =>
            match publish broker 0 subGraphs (Work n) with
            | (work, Some e) => Err e (mkNode st (NodeRole n) work (Broadcasts n))
            | (work, None) =>
                Ok (mkNode (Legacy.mkState (Legacy.Graph st) (Legacy.C st)
                              (Legacy.Threshold st) Map (Legacy.Others st)
                              (Legacy.Data st) k)
                           (NodeRole n) work (Broadcasts n))
            end
        end
  end.

(** The loop of this revision's [masterConvergence] over [State.Data]:
    [for id, newRank := range Data { oldRank := Graph[id].Rank;
       convergence += math.Abs(newRank - oldRank); Graph[id].Rank = newRank }];
    reading the field of a vertex that is not there panics ([None]). *)
Fixpoint commitRanks (entries : list (Z * float)) (convergence : float)
    (g : gmap Z Legacy.GraphNode) : option (float * gmap Z Legacy.GraphNode) :=
  match entries with
  | [] => Some (convergence, g)
  | (id, newRank) :: rest =>
      match g !! id with
      | None => None
      | Some node =>
          let oldRank := Legacy.Rank node in
          commitRanks rest (convergence + abs (newRank - oldRank))%float
            (<[id := Legacy.mkGraphNode newRank (Legacy.EValue node) (Legacy.OutLinks node)]> g)
      end
  end.

(** [&proto.State{Phase: int32(Wait)}]: every other field is zero. *)
Definition waitState : Legacy.ProtoState :=
  Legacy.mkState ∅ 0%float 0%float Wait [] ∅ 0.

(** [masterConvergence] of this revision; [keys] is the order in which the
    loop visits [State.Data], [order] the order of the partition loop. *)
Definition masterConvergence (keys order : list Z) (broker : nat → Job → option error)
    (n : Node) : outcome Node :=
  let st := State n in
  match commitRanks (range (Legacy.Data st) keys) 0%float (Legacy.Graph st) with
  | None => Panic
  | Some (convergence, g) =>
      let n1 := mkNode (Legacy.mkState g (Legacy.C st) (Legacy.Threshold st)
                                       (Legacy.Phase st) (Legacy.Others st)
                                       (Legacy.Data st) (Legacy.Jobs st))
                       (NodeRole n) (Work n) (Broadcasts n) in
      if (Legacy.Threshold st <? convergence)%float then
        WriteGraphToQueue order broker n1
      else
        Ok (mkNode waitState (NodeRole n) (Work n) (S (Broadcasts n)))
  end.

End LegacyRun.

(** ** The layered server: announcements, placement, hand-over of a graph *)

Module lib.

(** [lib.ConnectionInfo{Address, Port}]. *)
Record ConnectionInfo := mkConnectionInfo { Address : string; Port : Z }.

(** [lib.AnnounceMessage{LayerNumber, Connection}]. *)
Record AnnounceMessage := mkAnnounceMessage {
  LayerNumber : Z;
  Connection : ConnectionInfo
}.

(** [lib.Info{LayerNumber, Layer1S, Assigned}]; [Assigned] is a pointer, nil
    unless the caller is placed under a layer-1 node. *)
Record Info := mkInfo {
  Info_LayerNumber : Z;
  Layer1S : list ConnectionInfo;
  Assigned : option ConnectionInfo
}.

End lib.

(** How a handler of the server ends: it returns a response and an error
    (nil or a message), leaving the node in some state, or it panics. *)
Inductive served (S R : Type) :=
| Served (state : S) (response : R) (err : option string)
| Crashed.
Arguments Served {S R} state response err.
Arguments Crashed {S R}.

(** An [int32] after an addition: the value wrapped into [-2^31, 2^31). *)
Definition wrap32 (z : Z) : Z := ((z + 2 ^ 31) mod 2 ^ 32 - 2 ^ 31)%Z.

(** The values of an [int32]. *)
Definition int32 (z : Z) : Prop := (- 2 ^ 31 ≤ z < 2 ^ 31)%Z.

Section layers.

(** The vertices of [lib.Graph] and their method [Map()] (package [lib], not
    part of the sources): the contributions of a vertex, in the order in
    which a [range] over them visits them. *)
Variable V : Type.
Variable nodeMap : V → list (Z * float).

(** The fields of [Layer1Node] that the handlers below read or write, with
    the types their uses fix: [Layer1s] and [Layer2s] are slices of
    connections, [NumberOfNodes] is indexed like [Layer1s] and holds
    [int32] counts, [SubGraphs] is a slice of maps (nil until made), and
    [MapData] a map of floats. *)
Record Layer1Node := mkLayer1Node {
  Layer : Z;
  Address : string;
  Port : Z;
  Layer1s : list lib.ConnectionInfo;
  Layer2s : list lib.ConnectionInfo;
  NumberOfNodes : list Z;
  NodePhase : Phase;
  NodeGraph : gmap Z V;
  SubGraphs : list (option (gmap Z V));
  MapData : gmap Z float
}.

(** What the interface value [*n.Node] holds: a layer-1 node, or a node of
    another kind, for which the type assertion to a layer-1 node fails. *)
Inductive AnyNode := IsLayer1 (node : Layer1Node) | IsOther.

Definition setLayer1s (l : list lib.ConnectionInfo) (n : Layer1Node) : Layer1Node :=
  mkLayer1Node (Layer n) (Address n) (Port n) l (Layer2s n) (NumberOfNodes n)
               (NodePhase n) (NodeGraph n) (SubGraphs n) (MapData n).

Definition setLayer2s (l : list lib.ConnectionInfo) (n : Layer1Node) : Layer1Node :=
  mkLayer1Node (Layer n) (Address n) (Port n) (Layer1s n) l (NumberOfNodes n)
               (NodePhase n) (NodeGraph n) (SubGraphs n) (MapData n).

Definition setNumberOfNodes (l : list Z) (n : Layer1Node) : Layer1Node :=
  mkLayer1Node (Layer n) (Address n) (Port n) (Layer1s n) (Layer2s n) l
               (NodePhase n) (NodeGraph n) (SubGraphs n) (MapData n).

(** [Layer1NodeServerImpl.Announce]: the node and the error it returns. *)
Definition Layer1Announce (msg : lib.AnnounceMessage) (n : Layer1Node)
    : Layer1Node * option string :=
  if bool_decide (lib.LayerNumber msg = 1%Z) then
    (setLayer1s (Layer1s n ++ [lib.Connection msg]) n, None)
  else if bool_decide (lib.LayerNumber msg = 2%Z) then
    (setLayer2s (Layer2s n ++ [lib.Connection msg]) n, None)
  else (n, Some "invalid layer number").

(** [NodeServerImpl.Announce]: the same behind the type assertion. *)
Definition Announce (msg : lib.AnnounceMessage) (n : AnyNode) : AnyNode * option string :=
  match n with
  | IsOther => (IsOther, Some "request cannot be fulfilled by this node")
  | IsLayer1 node =>
      if bool_decide (lib.LayerNumber msg = 1%Z) then
        (IsLayer1 (setLayer1s (Layer1s node ++ [lib.Connection msg]) node), None)
      else if bool_decide (lib.LayerNumber msg = 2%Z) then
        (IsLayer1 (setLayer2s (Layer2s node ++ [lib.Connection msg]) node), None)
      else (IsLayer1 node, Some "request cannot be fulfilled by this node")
  end.

(** The search of [GetInfo]:
    [for i, v := range NumberOfNodes { if minNumOfNodes > v { minNumOfNodes = v; assigned = i } }]
    from index [i] on. *)
Fixpoint leastLoaded (i : nat) (counts : list Z) (minNumOfNodes : Z) (assigned : nat) : nat :=
  match counts with
  | [] => assigned
  | v :: rest =>
      if bool_decide (v < minNumOfNodes)%Z
      then leastLoaded (S i) rest v i
      else leastLoaded (S i) rest minNumOfNodes assigned
  end.

(** [NodeServerImpl.GetInfo].  Indexing [Layer1s] or [NumberOfNodes] out of
    range panics; [+= 1] on an [int32] wraps. *)
Definition GetInfo (caller : lib.ConnectionInfo) (n : AnyNode)
    : served AnyNode lib.Info :=
  let info := lib.mkInfo 0 [] None in
  match n with
  | IsOther =>
      Served n info (Some "cannot ask info on a node that is not the first")
  | IsLayer1 first =>
      if bool_decide (Layer first ≠ 0%Z) then
        Served n info (Some "cannot ask info on a node that is not the first")
      else if bool_decide (length (Layer1s first) < 4) then
        Served (IsLayer1 (setLayer1s (Layer1s first ++ [caller]) first))
               (lib.mkInfo 1 (Layer1s first) None) None
      else
        let assigned := leastLoaded 0 (NumberOfNodes first) (2 ^ 31 - 1)%Z 0 in
        match Layer1s first !! assigned with
        | None => Crashed
        | Some conn =>
            match NumberOfNodes first !! assigned with
            | None => Crashed
            | Some count =>
                Served (IsLayer1 (setNumberOfNodes
                                    (<[assigned := wrap32 (count + 1)]> (NumberOfNodes first))
                                    first))
                       (lib.mkInfo 2 [] (Some conn)) None
            end
        end
  end.

(** [Layer1Node.Init]: for every layer-1 node of [info], in order, record
    it, open a client ([dial] tells the error, if any) and announce this
    node to it ([announce] tells the error of the RPC).  The result is the
    node, the announcements that went through, and the error returned. *)
Fixpoint Init (dial : lib.ConnectionInfo → option string)
    (announce : lib.ConnectionInfo → lib.AnnounceMessage → option string)
    (peers : list lib.ConnectionInfo) (n : Layer1Node)
    (sent : list (lib.ConnectionInfo * lib.AnnounceMessage))
    : Layer1Node * list (lib.ConnectionInfo * lib.AnnounceMessage) * option string :=
  match peers with
  | [] => (n, sent, None)
  | v :: rest =>
      let n1 := setLayer1s (Layer1s n ++ [v]) n in
      match dial v with
      | Some err => (n1, sent, Some err)
      | None =>
          let announceMsg :=
            lib.mkAnnounceMessage 1 (lib.mkConnectionInfo (Address n) (Port n)) in
          match announce v announceMsg with
          | Some err => (n1, sent, Some err)
          | None => Init dial announce rest n1 (sent ++ [(v, announceMsg)])
          end
      end
  end.

(** The local Map of [ReceiveGraph]:
    [for _, node := range in.Graph { for id, v := range node.Map() { MapData[id] += v } }]. *)
Definition mapLocally (entries : list (Z * V)) (mapData : gmap Z float) : gmap Z float :=
  foldl (λ acc e,
           foldl (λ acc' c, <[c.1 := (default 0%float (acc' !! c.1) + c.2)%float]> acc')
                 acc (nodeMap e.2))
        mapData entries.

(** The hand-over loop of [ReceiveGraph]:
    [for id, node := range in.Graph { SubGraphs[index/per][id] = node; index += 1 }].
    A division by zero, an index out of range and a write to a nil map all
    panic ([None]). *)
Fixpoint distribute (per : nat) (entries : list (Z * V)) (index : nat)
    (subGraphs : list (option (gmap Z V))) : option (list (option (gmap Z V))) :=
  match entries with
  | [] => Some subGraphs
  | (id, node) :: rest =>
      if bool_decide (per = 0) then None
      else
        match subGraphs !! (index / per) with
        | None => None
        | Some None => None
        | Some (Some m) =>
            distribute per rest (S index)
                       (<[index / per := Some (<[id := node]> m)]> subGraphs)
        end
  end.

(** [Layer1NodeServerImpl.ReceiveGraph] for the graph [graph], visited in
    the order [order].  [make([]lib.Graph, k)] yields [k] nil maps. *)
Definition ReceiveGraph (order : list Z) (graph : gmap Z V) (n : Layer1Node)
    : served Layer1Node unit :=
  let mapData : gmap Z float := ∅ in
  if bool_decide (length (Layer2s n) = 0) then
    Served (mkLayer1Node (Layer n) (Address n) (Port n) (Layer1s n) (Layer2s n)
                         (NumberOfNodes n) Collect (NodeGraph n) (SubGraphs n)
                         (mapLocally (range graph order) mapData))
           tt None
  else
    let subGraphs := replicate (length (Layer2s n)) None in
    let graphNodesPerNetworkNodes := size graph / length (Layer2s n) in
    match distribute graphNodesPerNetworkNodes (range graph order) 0 subGraphs with
    | None => Crashed
    | Some subGraphs' =>
        Served (mkLayer1Node (Layer n) (Address n) (Port n) (Layer1s n) (Layer2s n)
                             (NumberOfNodes n) Map graph subGraphs' mapData)
               tt None
    end.

End layers.

Arguments mkLayer1Node {V}.
Arguments IsLayer1 {V}.
Arguments IsOther {V}.

(** ** Notions used to state the properties *)

(** The rank stored for [id] (zero when [id] is no vertex). *)
Definition rankAt (g : gmap Z proto.GraphNode) (id : Z) : float :=
  from_option proto.Rank 0%float (g !! id).

(** Every replica in every [InLinks] equals the rank of the vertex it
    stands for. *)
Definition linksFresh (g : gmap Z proto.GraphNode) : Prop :=
  ∀ id u j ref, g !! id = Some u → proto.InLinks u !! j = Some ref →
    ∃ w, g !! j = Some w ∧ proto.Ref_Rank ref = proto.Rank w.

(** The ranks shown by the lines of an output, in order. *)
Definition printedRanks (out : list line) : list float :=
  omap (λ l, match l with RankLine _ r => Some r | PromptLine => None end) out.

(** The message the consumer is working on, if any. *)
Definition current (pc : Pc) : list Delivery :=
  match pc with
  | AwaitMsg => []
  | Folding d _ _ => [d]
  | Counting d => [d]
  end.

(** What the program counter records is true of the message at hand. *)
Definition pc_ok (pc : Pc) : Prop :=
  match pc with
  | AwaitMsg => True
  | Folding d folded rest => Body d = Some (folded ++ rest)
  | Counting d => counted d = true
  end.

(** The invariant of the consumer loop, relative to the accumulator and the
    queue at the start of the phase. *)
Definition consumer_inv (data : gmap Z float) (inbox : list Delivery) (c : Consumer) : Prop :=
  cHandled c ++ current (cPc c) ++ cInbox c = inbox ∧
  pc_ok (cPc c) ∧
  cData c = foldInto (concat (values <$> cHandled c) ++ inProgress (cPc c)) data ∧
  cResponses c = length (filter (λ d, counted d = true) (cHandled c)).

(** The size of shard [j] once [p] vertices have been dealt out over [K]
    shards. *)
Definition share (K p j : nat) : nat :=
  p / K + (if decide (j < p mod K) then 1 else 0).

(** The moves between phases that one pass of the driver loop can make. *)
Definition phaseStep (p q : Phase) : bool :=
  match p, q with
  | Wait, Wait | Wait, Map
  | Map, Map | Map, Collect
  | Collect, Reduce | Collect, Convergence
  | Reduce, Reduce | Reduce, Convergence
  | Convergence, Wait => true
  | _, _ => false
  end.

(** The number of actions the consumer spends on a message: one to take and
    decode it; for a decodable one, one per pair, one for the
    acknowledgement and, when that succeeds, one for the counter. *)
Definition actions (d : Delivery) : nat :=
  match Body d with
  | None => 1
  | Some l => 2 + length l + (if AckOk d then 1 else 0)
  end.

(** A layer-1 node after a series of [Announce] calls, errors ignored. *)
Definition announceAll {V : Type} (msgs : list lib.AnnounceMessage) (n : Layer1Node V)
    : Layer1Node V :=
  foldl (λ n msg, (Layer1Announce V msg n).1) n msgs.

(** A series of [GetInfo] calls, one per caller: the node afterwards and the
    responses in order, or [None] when a call panics. *)
Fixpoint joinAll {V : Type} (callers : list lib.ConnectionInfo) (n : AnyNode V)
    : option (AnyNode V * list lib.Info) :=
  match callers with
  | [] => Some (n, [])
  | caller :: rest =>
      match GetInfo V caller n with
      | Crashed => None
      | Served n' info _ => (λ r, (r.1, info :: r.2)) <$> joinAll rest n'
      end
  end.

(** The value the earlier [masterConvergence] compares with the threshold:
    [c], then [+= math.Abs(newRank - oldRank)] for the entries in the order
    given, each old rank read from [g]. *)
Definition legacyDelta (g : gmap Z Legacy.GraphNode) (entries : list (Z * float))
    (c : float) : float :=
  foldl (λ acc p, (acc + abs (p.2 - default 0%float (Legacy.Rank <$> g !! p.1)))%float)
        c entries.


(** ** Sample inputs *)

(** A vertex given by its rank, its teleport weight and its in-links. *)
Definition vertex (rank e : float) (links : list (Z * float)) : proto.GraphNode :=
  proto.mkGraphNode rank e (list_to_map ((λ p, (p.1, proto.mkNodeRef p.2)) <$> links)).

(** Two vertices that link to each other; the replicas are stale. *)
Definition pairGraph : gmap Z proto.GraphNode :=
  list_to_map [(1%Z, vertex 0.25 1 [(2%Z, 0.125%float)]);
               (2%Z, vertex 0.5 1 [(1%Z, 0.125%float)])].

(** A master in phase Convergence over [pairGraph] with two workers; the
    accumulated ranks are 2 and 0.5, so the distance is 1.75. *)
Definition pairNode (threshold : float) : Node :=
  mkNode (proto.mkState pairGraph 0.5 threshold Convergence ["w1"; "w2"]) 2 0
         (list_to_map [(1%Z, 2%float); (2%Z, 0.5%float)]) [] [] 0.

(** One vertex whose rank, old and new, is zero. *)
Definition zeroNode : Node :=
  mkNode (proto.mkState (list_to_map [(1%Z, vertex 0 1 [])]) 0.5 0.5 Convergence ["w1"]) 1 0
         (list_to_map [(1%Z, 0%float)]) [] [] 0.

(** Three vertices whose ranks 1, 1.125 and 2.25 are already committed. *)
Definition tripleNode : Node :=
  mkNode (proto.mkState
            (list_to_map [(1%Z, vertex 1 1 []); (2%Z, vertex 1.125 1 []);
                          (3%Z, vertex 2.25 1 [])])
            0.5 0.5 Convergence ["w1"]) 1 0
         (list_to_map [(1%Z, 1%float); (2%Z, 1.125%float); (3%Z, 2.25%float)]) [] [] 0.

(** The accumulator names an id that is no vertex. *)
Definition strayNode : Node :=
  mkNode (proto.mkState (list_to_map [(1%Z, vertex 1 1 [])]) 0.5 0.5 Convergence ["w1"]) 1 0
         (list_to_map [(7%Z, 1%float)]) [] [] 0.

(** A master in phase Collect whose workers are all gone: one vertex with
    rank 0.25 and teleport weight 1, damping 0.5, accumulated sum 2. *)
Definition collectNode : Node :=
  mkNode (proto.mkState (list_to_map [(1%Z, vertex 0.25 1 [])]) 0.5 0.5 Collect []) 1 0
         (list_to_map [(1%Z, 2%float)]) [] [] 0.

(** A master in phase Wait over [pairGraph] without workers. *)
Definition soloNode : Node :=
  mkNode (proto.mkState pairGraph 0.5 0.5 Wait []) 0 0 utils.NewSafeMap [] [] 0.

(** A single-node PageRank that returns at once, leaving the ranks alone. *)
Definition idlePageRank (g : gmap Z proto.GraphNode) (c threshold : float)
    : option (gmap Z proto.GraphNode) := Some g.

(** A broker that accepts every job. *)
Definition reliableBroker (idx : nat) (job : proto.Job) : option error := None.

(** Worker [w2] is up but fails the RPC; every other worker acknowledges. *)
Definition crashedPeer (w : string) : PeerReply :=
  if String.eqb w "w2" then RpcFails else Acks.

(** Two result messages, both decodable and acknowledged. *)
Definition twoResults : list Delivery :=
  [mkDelivery (Some [(1%Z, 0.5%float); (2%Z, 0.25%float)]) true;
   mkDelivery (Some [(1%Z, 0.125%float)]) true].

(** A node of the earlier revision in phase Collect with the given workers
    and vertices. *)
Definition legacyNode (workers : list string) (ids : list Z) : Legacy.Node :=
  Legacy.mkNode
    (Legacy.mkState (list_to_map ((λ id, (id, Legacy.mkGraphNode 0.5 0.5 [])) <$> ids))
                    0.5 0.5 Collect workers ∅ 0)
    [].

(** A broker that accepts the first job of a batch and refuses the second. *)
Definition secondFails (idx : nat) (job : proto.Job) : option error :=
  if bool_decide (idx = 1) then Some PublishError else None.

(** What a pass over [pairGraph] may be given: a single-node PageRank that
    returns at once, a dialogue that yields [pairGraph], the vertices in the
    order 2, 1 for every loop, and a broker that accepts every job. *)
Definition pairEnv : Env :=
  mkEnv idlePageRank (0.5%float, 0.5%float, pairGraph) [2; 1]%Z [2; 1]%Z [2; 1]%Z [2; 1]%Z
        reliableBroker.

(** Four endpoints. *)
Definition endpoints : list lib.ConnectionInfo :=
  [lib.mkConnectionInfo "a" 1; lib.mkConnectionInfo "b" 2;
   lib.mkConnectionInfo "c" 3; lib.mkConnectionInfo "d" 4].

(** The first node of a network (layer 0) with the layer-1 nodes [l1], the
    layer-2 nodes [l2] and the counts [counts]; its vertices are floats. *)
Definition firstNode (l1 l2 : list lib.ConnectionInfo) (counts : list Z) : Layer1Node float :=
  mkLayer1Node 0 "first" 9 l1 l2 counts Wait ∅ [] ∅.

(** A vertex that contributes its value to the id 1. *)
Definition toOne (v : float) : list (Z * float) := [(1%Z, v)].

(** A master of the earlier revision in phase Convergence with the given
    workers, threshold 0.5, the vertices [ids] at rank 0.5 and the
    accumulated rank [r] for each of them. *)
Definition legacyRunNode (workers : list string) (ids : list Z) (r : float)
    : LegacyRun.Node :=
  LegacyRun.mkNode
    (Legacy.mkState (list_to_map ((λ id, (id, Legacy.mkGraphNode 0.5 0.5 [])) <$> ids))
                    0.5 0.5 Convergence workers
                    (list_to_map ((λ id, (id, r)) <$> ids)) 0)
    LegacyRun.Master [] 0.

(** A broker of the earlier revision that accepts every job. *)
Definition legacyBroker (idx : nat) (job : LegacyRun.Job) : option error := None.

(** A network in which the endpoint at port 3 cannot be reached, and every
    announcement that is sent is accepted. *)
Definition thirdUnreachable (v : lib.ConnectionInfo) : option string :=
  if bool_decide (lib.Port v = 3%Z) then Some "unreachable" else None.

Definition acceptsAnnounce (v : lib.ConnectionInfo) (msg : lib.AnnounceMessage)
    : option string := None.




(** A master in phase Wait over [pairGraph] with two workers. *)
Definition waitingPair : Node :=
  mkNode (proto.mkState pairGraph 0.5 0.5 Wait ["w1"; "w2"]) 0 0 utils.NewSafeMap [] [] 0.

(** The two Map jobs of [pairGraph] visited in the order 2, 1: one vertex
    each. *)
Definition jobOfTwo : proto.Job :=
  mapJob {[2%Z := vertex 0.5 1 [(1%Z, 0.125%float)]]}.

Definition jobOfOne : proto.Job :=
  mapJob {[1%Z := vertex 0.25 1 [(2%Z, 0.125%float)]]}.

Definition pairJobs : list proto.Job := [jobOfTwo; jobOfOne].

(** Workers (they are not part of the sources) that answer a Map job with
    the partial sum 0.25 for every vertex of its subgraph, in a message that
    decodes and can be acknowledged. *)
Definition echo (job : proto.Job) : Delivery :=
  mkDelivery (Some ((λ id, (id, 0.25%float)) <$> elements (dom (proto.MapData job)))) true.

(** The result queue when the result of [jobOfOne] is delivered twice and
    that of [jobOfTwo] not at all. *)
Definition redelivered : list Delivery := [echo jobOfOne; echo jobOfOne].

(** * Properties *)

(** ** Ranging over a map *)

Section range_facts.
Context {A : Type}.
Implicit Types (m : gmap Z A) (order : list Z).

Lemma range_order_NoDup m order : range_order m order → NoDup order.
Proof.
  intros Hp. unfold range_order in Hp. rewrite Hp. apply NoDup_elements.
Qed.

Lemma range_order_elem m order k :
  range_order m order → k ∈ order ↔ is_Some (m !! k).
Proof.
  intros Hp. unfold range_order in Hp. rewrite Hp, elem_of_elements.
  apply elem_of_dom.
Qed.

Lemma range_order_length m order : range_order m order → length order = size m.
Proof.
  intros Hp. unfold range_order in Hp. rewrite Hp.
  change (length (elements (dom m))) with (size (dom m)). apply size_dom.
Qed.

Lemma range_nil m : range m [] = [].
Proof. reflexivity. Qed.

Lemma range_cons_Some m k v order :
  m !! k = Some v → range m (k :: order) = (k, v) :: range m order.
Proof. intros Hk. unfold range. simpl. rewrite Hk. reflexivity. Qed.

Lemma range_cons_None m k order :
  m !! k = None → range m (k :: order) = range m order.
Proof. intros Hk. unfold range. simpl. rewrite Hk. reflexivity. Qed.

Lemma range_fst m order :
  (∀ k, k ∈ order → is_Some (m !! k)) → (range m order).*1 = order.
Proof.
  induction order as [|k order IH]; intros Hin; [done|].
  destruct (Hin k) as [v Hv]; [left|].
  rewrite (range_cons_Some _ _ v) by done. simpl. f_equal.
  apply IH. intros k' Hk'. apply Hin. by right.
Qed.

Lemma range_lookup m order p k v :
  (∀ k, k ∈ order → is_Some (m !! k)) →
  range m order !! p = Some (k, v) ↔ order !! p = Some k ∧ m !! k = Some v.
Proof.
  revert p. induction order as [|k0 order IH]; intros p Hin.
  - rewrite range_nil. rewrite !lookup_nil. split; [intros [=] | intros [[=] _]].
  - destruct (Hin k0) as [v0 Hv0]; [left|].
    rewrite (range_cons_Some _ _ v0) by done.
    destruct p as [|p]; simpl.
    + split; [intros [= <- <-]; done | intros [[= <-] Hkv]; congruence].
    + apply IH. intros k' Hk'. apply Hin. by right.
Qed.

End range_facts.

(** ** The round-robin partition *)

Section assign_facts.
Context {A : Type}.
Implicit Types (es : list (Z * A)) (subs : list (gmap Z A)).

Lemma succ_mod_add K i p : 0 < K → ((i + 1) mod K + p) mod K = (i + S p) mod K.
Proof.
  intros HK. rewrite Nat.Div0.add_mod_idemp_l. f_equal. lia.
Qed.

(** The loop started at index [i] with shards whose keys are not about to
    be assigned: afterwards shard [j] holds what it held, and the entry
    visited [p]-th for every [p] with [(i + p) mod K = j]. *)
Lemma assign_spec K es : ∀ i subs,
  0 < K → i < K → length subs = K → NoDup es.*1 →
  (∀ j sg k, subs !! j = Some sg → is_Some (sg !! k) → k ∉ es.*1) →
  ∃ subs', assign K es i subs = Some subs' ∧ length subs' = K ∧
    ∀ j sg' k v, subs' !! j = Some sg' →
      sg' !! k = Some v ↔
        (∃ p, es !! p = Some (k, v) ∧ (i + p) mod K = j) ∨
        (∃ sg, subs !! j = Some sg ∧ sg !! k = Some v).
Proof.
  induction es as [|[id node] es IH]; intros i subs HK Hi Hlen Hnd Hfresh.
  - exists subs. split; [done|]. split; [done|].
    intros j sg' k v Hj. split.
    + intros Hk. right. eauto.
    + intros [(p & Hp & _)|(sg & Hsg & Hk)]; [by rewrite lookup_nil in Hp|].
      congruence.
  - simpl in Hnd. apply NoDup_cons in Hnd as [Hid Hnd].
    destruct (lookup_lt_is_Some_2 subs i) as [sg Hsg]; [lia|].
    simpl. rewrite Hsg. destruct K as [|K']; [lia|].
    set (K := S K') in *.
    destruct (IH ((i + 1) mod K) (<[i := <[id := node]> sg]> subs))
      as (subs' & Hrun & Hlen' & Hspec).
    + done.
    + apply Nat.mod_upper_bound. lia.
    + by rewrite length_insert.
    + done.
    + intros j sg1 k Hj Hk Hin.
      destruct (decide (j = i)) as [->|Hne].
      * rewrite list_lookup_insert_eq in Hj by lia. injection Hj as <-.
        destruct (decide (k = id)) as [->|Hkid]; [done|].
        rewrite lookup_insert_ne in Hk by done.
        apply (Hfresh i sg k Hsg Hk). simpl. by right.
      * rewrite list_lookup_insert_ne in Hj by done.
        apply (Hfresh j sg1 k Hj Hk). simpl. by right.
    + exists subs'. split; [done|]. split; [done|].
      intros j sg' k v Hj. rewrite (Hspec j sg' k v Hj). split.
      * intros [(p & Hp & Hmod)|(sg1 & Hsg1 & Hk)].
        -- left. exists (S p). split; [done|]. by rewrite <- succ_mod_add by lia.
        -- destruct (decide (j = i)) as [->|Hne].
           ++ rewrite list_lookup_insert_eq in Hsg1 by lia. injection Hsg1 as <-.
              destruct (decide (k = id)) as [->|Hkid].
              ** rewrite lookup_insert_eq in Hk. injection Hk as <-.
                 left. exists 0. split; [done|].
                 rewrite Nat.add_0_r. by apply Nat.mod_small.
              ** rewrite lookup_insert_ne in Hk by done. right. eauto.
           ++ rewrite list_lookup_insert_ne in Hsg1 by done. right. eauto.
      * intros [(p & Hp & Hmod)|(sg0 & Hsg0 & Hk)].
        -- destruct p as [|p]; simpl in Hp.
           ++ injection Hp as <- <-. rewrite Nat.add_0_r, Nat.mod_small in Hmod by done.
              subst j. right. exists (<[id := node]> sg).
              split; [by rewrite list_lookup_insert_eq by lia|].
              apply lookup_insert_eq.
           ++ left. exists p. split; [done|]. by rewrite succ_mod_add by lia.
        -- right.
           assert (k ≠ id) as Hkid.
           { intros ->. apply (Hfresh j sg0 id Hsg0); [eauto|]. simpl. by left. }
           destruct (decide (j = i)) as [->|Hne].
           ++ exists (<[id := node]> sg).
              split; [by rewrite list_lookup_insert_eq by lia|].
              rewrite lookup_insert_ne by done. congruence.
           ++ exists sg0. split; [by rewrite list_lookup_insert_ne|done].
Qed.

End assign_facts.

(** The partition of a graph visited in a valid order: shard [j] holds
    exactly the vertices visited at the positions [p] with [p mod K = j]. *)
Lemma partition_spec {A : Type} (K : nat) (g : gmap Z A) (order : list Z) :
  1 ≤ K → range_order g order →
  ∃ subGraphs, partition K g order = Some subGraphs ∧ length subGraphs = K ∧
    ∀ j sg k v, subGraphs !! j = Some sg →
      sg !! k = Some v ↔ ∃ p, order !! p = Some k ∧ g !! k = Some v ∧ p mod K = j.
Proof.
  intros HK Hord.
  assert (∀ k, k ∈ order → is_Some (g !! k)) as Hin.
  { intros k Hk. by apply (range_order_elem g order k Hord). }
  destruct (assign_spec K (range g order) 0 (replicate K ∅))
    as (subs & Hrun & Hlen & Hspec).
  - lia.
  - lia.
  - apply length_replicate.
  - rewrite range_fst by done. by eapply range_order_NoDup.
  - intros j sg k Hj [v Hv]. apply lookup_replicate in Hj as [-> _].
    by rewrite lookup_empty in Hv.
  - exists subs. split; [done|]. split; [done|].
    intros j sg k v Hj. rewrite (Hspec j sg k v Hj). split.
    + intros [(p & Hp & Hmod)|(sg0 & Hsg0 & Hk)].
      * apply range_lookup in Hp as [Hp Hg]; [|done]. eauto.
      * apply lookup_replicate in Hsg0 as [-> _]. by rewrite lookup_empty in Hk.
    + intros (p & Hp & Hg & Hmod). left. exists p. split; [|done].
      apply range_lookup; done.
Qed.

(** An empty graph is partitioned into [K] empty shards, whatever [K]. *)
Lemma partition_empty {A : Type} (K : nat) (g : gmap Z A) (order : list Z) :
  size g = 0 → range_order g order → partition K g order = Some (replicate K ∅).
Proof.
  intros Hsz Hord. apply range_order_length in Hord. rewrite Hsz in Hord.
  destruct order; [reflexivity | discriminate].
Qed.

(** C2.  For every graph [g], every [K] with [1 ≤ K ≤ |g|] and every order
    in which the runtime may visit [g], the partition loop of the job
    dispatch yields [K] subgraphs; the vertex visited [i]-th is in shard
    [i mod K]; the vertex sets of the shards have the vertex set of [g] as
    their union, and any two of them are disjoint. *)
Theorem partition_round_robin (g : gmap Z proto.GraphNode) (K : nat) (order : list Z) :
  1 ≤ K → K ≤ size g → range_order g order →
  ∃ subGraphs, partition K g order = Some subGraphs ∧ length subGraphs = K ∧
    (∀ i id, order !! i = Some id →
       ∃ sg, subGraphs !! (i mod K) = Some sg ∧ is_Some (sg !! id) ∧ sg !! id = g !! id) ∧
    ⋃ (dom <$> subGraphs) = dom g ∧
    (∀ a b sa sb, a ≠ b → subGraphs !! a = Some sa → subGraphs !! b = Some sb →
       dom sa ## dom sb).
Proof.
  intros HK _ Hord.
  destruct (partition_spec K g order HK Hord) as (subs & Hrun & Hlen & Hspec).
  exists subs. split; [done|]. split; [done|]. split; [|split].
  - intros i id Hi.
    destruct (lookup_lt_is_Some_2 subs (i mod K)) as [sg Hsg].
    { rewrite Hlen. apply Nat.mod_upper_bound. lia. }
    destruct (proj1 (range_order_elem g order id Hord)) as [v Hv].
    { by eapply list_elem_of_lookup_2. }
    assert (sg !! id = Some v) as Hsgid by (apply (Hspec _ _ _ _ Hsg); eauto).
    exists sg. rewrite Hsgid, Hv. eauto.
  - apply set_eq. intros k. rewrite elem_of_union_list, elem_of_dom. split.
    + intros (X & HX & Hk). apply list_elem_of_fmap in HX as (sg & -> & Hsg).
      apply list_elem_of_lookup in Hsg as [j Hj].
      apply elem_of_dom in Hk as [v Hv].
      apply (Hspec _ _ _ _ Hj) in Hv as (p & _ & Hg & _). eauto.
    + intros [v Hv].
      assert (k ∈ order) as Hk by (apply (range_order_elem g order k Hord); eauto).
      apply list_elem_of_lookup in Hk as [p Hp].
      destruct (lookup_lt_is_Some_2 subs (p mod K)) as [sg Hsg].
      { rewrite Hlen. apply Nat.mod_upper_bound. lia. }
      exists (dom sg). split.
      * apply list_elem_of_fmap. exists sg. split; [done|].
        by eapply list_elem_of_lookup_2.
      * apply elem_of_dom. exists v. apply (Hspec _ _ _ _ Hsg). eauto.
  - intros a b sa sb Hab Ha Hb. apply elem_of_disjoint. intros k Hka Hkb.
    apply elem_of_dom in Hka as [va Hva]. apply elem_of_dom in Hkb as [vb Hvb].
    apply (Hspec _ _ _ _ Ha) in Hva as (p & Hp & _ & Hpa).
    apply (Hspec _ _ _ _ Hb) in Hvb as (q & Hq & _ & Hqb).
    assert (p = q) by (eapply NoDup_lookup; eauto using range_order_NoDup).
    subst. done.
Qed.

(** ** The work publisher *)

(** The number of jobs is the smaller of the number of workers and the
    number of vertices. *)
Lemma numberOfJobs_min (n : Node) :
  numberOfJobs n = length (proto.Others (State n)) `min` size (proto.Graph (State n)).
Proof. unfold numberOfJobs. case_bool_decide; lia. Qed.

(** With at least one worker the partition loop of [masterWriteQueue] does
    not panic. *)
Lemma masterWriteQueue_partition (order : list Z) (n : Node) :
  proto.Others (State n) ≠ [] → range_order (proto.Graph (State n)) order →
  ∃ subGraphs, partition (numberOfJobs n) (proto.Graph (State n)) order = Some subGraphs
    ∧ length subGraphs = numberOfJobs n.
Proof.
  intros Hothers Hord.
  destruct (decide (size (proto.Graph (State n)) = 0)) as [Hsz|Hsz].
  - rewrite (partition_empty _ _ _ Hsz Hord). eexists. split; [done|].
    apply length_replicate.
  - destruct (partition_spec (numberOfJobs n) (proto.Graph (State n)) order)
      as (subs & Hrun & Hlen & _); [|done|by exists subs].
    rewrite numberOfJobs_min.
    destruct (proto.Others (State n)) as [|w ws]; [done|]. rewrite length_cons. lia.
Qed.

(** The publishing loop when every job from [idx] on goes through. *)
Lemma publish_all fn broker subGraphs : ∀ idx work,
  (∀ i sg, subGraphs !! i = Some sg → broker (idx + i) (fn sg) = None) →
  publish fn broker idx subGraphs work = (work ++ (fn <$> subGraphs), None).
Proof.
  induction subGraphs as [|sg rest IH]; intros idx work Hok; simpl.
  - by rewrite app_nil_r.
  - rewrite <- (Nat.add_0_r idx) at 1. rewrite (Hok 0 sg) by done.
    rewrite IH; [by rewrite <- app_assoc|].
    intros i sg' Hi. replace (S idx + i) with (idx + S i) by lia. by apply Hok.
Qed.

(** The publishing loop when job [idx + i] is the first to fail. *)
Lemma publish_first_failure fn broker subGraphs : ∀ idx work i sg e,
  subGraphs !! i = Some sg → broker (idx + i) (fn sg) = Some e →
  (∀ j sg', j < i → subGraphs !! j = Some sg' → broker (idx + j) (fn sg') = None) →
  publish fn broker idx subGraphs work = (work ++ (fn <$> take i subGraphs), Some e).
Proof.
  induction subGraphs as [|sg0 rest IH]; intros idx work i sg e Hi He Hbefore;
    [by rewrite lookup_nil in Hi|].
  destruct i as [|i]; simpl in *.
  - injection Hi as ->. rewrite Nat.add_0_r in He. rewrite He.
    by rewrite app_nil_r.
  - rewrite <- (Nat.add_0_r idx) at 1. rewrite (Hbefore 0 sg0) by (done || lia).
    rewrite (IH (S idx) (work ++ [fn sg0]) i sg e); [by rewrite <- app_assoc|done| |].
    + by replace (S idx + i) with (idx + S i) by lia.
    + intros j sg' Hj Hsg'. replace (S idx + j) with (idx + S j) by lia.
      apply Hbefore; [lia|done].
Qed.

(** A handler hands on whatever error [masterWriteQueue] returns. *)
Lemma masterWait_error pagerank cfg printOrder order broker n e n' :
  0 < size (proto.Graph (State n)) → proto.Others (State n) ≠ [] →
  masterWriteQueue order broker mapJob (spawnBroadcast n) = Err e n' →
  masterWait pagerank cfg printOrder order broker n = Err e n'.
Proof.
  intros Hg Ho Herr. unfold masterWait.
  rewrite bool_decide_eq_true_2 by done.
  rewrite bool_decide_eq_false_2 by (by destruct (proto.Others (State n))).
  by rewrite Herr.
Qed.

Lemma masterCollect_error order broker n e n' :
  proto.Others (State n) ≠ [] →
  masterWriteQueue order broker (reduceJob (utils.Clone (Data n)))
    (setData (utils.Reset (Data n)) (spawnBroadcast n)) = Err e n' →
  masterCollect order broker n = Err e n'.
Proof.
  intros Ho Herr. unfold masterCollect.
  rewrite bool_decide_eq_false_2 by (by destruct (proto.Others (State n))).
  simpl. simpl in Herr. by rewrite Herr.
Qed.

(** C5.  With at least one worker, [masterWriteQueue] partitions the graph
    into [K = numberOfJobs n] subgraphs and then: when every one of the [K]
    jobs is serialized and published, it returns nil with the [K] messages
    appended to the work queue and [Jobs = K]; when the [i]-th job is the
    first whose serialization or publication fails, it returns that error
    with only the earlier messages published and [Jobs] as it was.  The
    phase handlers [masterWait] and [masterCollect] return that same error,
    and so does the pass of the driver loop that called them. *)
Theorem masterWriteQueue_jobs_after_publish (order : list Z)
    (broker : nat → proto.Job → option error)
    (fn : gmap Z proto.GraphNode → proto.Job) (n : Node) :
  proto.Others (State n) ≠ [] → range_order (proto.Graph (State n)) order →
  ∃ subGraphs,
    partition (numberOfJobs n) (proto.Graph (State n)) order = Some subGraphs ∧
    length subGraphs = numberOfJobs n ∧
    ((∀ i sg, subGraphs !! i = Some sg → broker i (fn sg) = None) →
       ∃ n', masterWriteQueue order broker fn n = Ok n' ∧
         Jobs n' = numberOfJobs n ∧
         Work n' = Work n ++ (fn <$> subGraphs) ∧
         n' = setJobs (numberOfJobs n) (setWork (Work n') n)) ∧
    (∀ i sg e, subGraphs !! i = Some sg → broker i (fn sg) = Some e →
       (∀ j sg', j < i → subGraphs !! j = Some sg' → broker j (fn sg') = None) →
       ∃ n', masterWriteQueue order broker fn n = Err e n' ∧
         Jobs n' = Jobs n ∧
         Work n' = Work n ++ (fn <$> take i subGraphs) ∧
         n' = setWork (Work n') n) ∧
    (∀ pagerank cfg printOrder e n',
       0 < size (proto.Graph (State n)) →
       masterWriteQueue order broker mapJob (spawnBroadcast n) = Err e n' →
       Jobs n' = Jobs n ∧
       masterWait pagerank cfg printOrder order broker n = Err e n') ∧
    (∀ e n',
       masterWriteQueue order broker (reduceJob (utils.Clone (Data n)))
         (setData (utils.Reset (Data n)) (spawnBroadcast n)) = Err e n' →
       Jobs n' = Jobs n ∧
       masterCollect order broker n = Err e n').
Proof.
  intros Ho Hord.
  destruct (masterWriteQueue_partition order n Ho Hord) as (subs & Hpart & Hlen).
  exists subs. split; [done|]. split; [done|]. split; [|split; [|split]].
  - intros Hok. unfold masterWriteQueue. rewrite Hpart.
    rewrite (publish_all fn broker subs 0 (Work n)) by done.
    eexists. split; [done|]. by simpl.
  - intros i sg e Hi He Hbefore. unfold masterWriteQueue. rewrite Hpart.
    rewrite (publish_first_failure fn broker subs 0 (Work n) i sg e) by done.
    eexists. split; [done|]. by simpl.
  - intros pagerank cfg printOrder e n' Hg Herr. split.
    + unfold masterWriteQueue in Herr.
      destruct (partition _ _ _); [|done].
      destruct (publish _ _ _ _ _) as [w [e'|]]; [|done].
      by injection Herr as _ <-.
    + by apply masterWait_error.
  - intros e n' Herr. split.
    + unfold masterWriteQueue in Herr.
      destruct (partition _ _ _); [|done].
      destruct (publish _ _ _ _ _) as [w [e'|]]; [|done].
      by injection Herr as _ <-.
    + by apply masterCollect_error.
Qed.

(** ** The Convergence handler *)

Lemma rankAt_insert_ne g id id' u : id ≠ id' → rankAt (<[id := u]> g) id' = rankAt g id'.
Proof. intros Hne. unfold rankAt. by rewrite lookup_insert_ne. Qed.

(** The ranks a [range] loop reads are those stored in the graph. *)
Lemma range_ranks (g : gmap Z proto.GraphNode) (order : list Z) :
  (∀ k, k ∈ order → is_Some (g !! k)) →
  (λ e, proto.Rank e.2) <$> range g order = rankAt g <$> order.
Proof.
  induction order as [|k order IH]; intros Hin; [done|].
  destruct (Hin k) as [v Hv]; [left|].
  rewrite (range_cons_Some _ _ v) by done. simpl. unfold rankAt at 1. rewrite Hv. simpl.
  f_equal. apply IH. intros k' Hk'. apply Hin. by right.
Qed.

(** The first loop: the distance accumulates [|new - old|] over the old
    ranks, and exactly the visited vertices get their new rank. *)
Lemma commitRanks_spec (data : gmap Z float) (keys : list Z) : ∀ convergence g,
  NoDup keys → (∀ id, id ∈ keys → is_Some (g !! id)) →
  ∃ g', commitRanks data keys convergence g =
          Some (foldl (λ acc x, acc + x)%float convergence
                  ((λ id, abs (utils.Get id data - rankAt g id))%float <$> keys), g') ∧
    ∀ id, g' !! id =
      if decide (id ∈ keys) then setRank (utils.Get id data) <$> g !! id else g !! id.
Proof.
  induction keys as [|id keys IH]; intros convergence g Hnd Hin.
  - exists g. split; [done|]. intros id. by rewrite decide_False by apply not_elem_of_nil.
  - apply NoDup_cons in Hnd as [Hid Hnd].
    destruct (Hin id) as [node Hnode]; [left|].
    simpl. rewrite Hnode.
    destruct (IH (convergence + abs (utils.Get id data - proto.Rank node))%float
                 (<[id := setRank (utils.Get id data) node]> g) Hnd)
      as (g' & Hrun & Hg').
    { intros id' Hid'. rewrite lookup_insert_is_Some'. right. apply Hin. by right. }
    exists g'. split.
    + rewrite Hrun. do 3 f_equal.
      * unfold rankAt. by rewrite Hnode.
      * apply list_fmap_ext. intros i id' Hi.
        rewrite rankAt_insert_ne; [done|].
        intros ->. apply Hid. by eapply list_elem_of_lookup_2.
    + intros id'. rewrite Hg'. destruct (decide (id' = id)) as [->|Hne].
      * rewrite decide_False by done. rewrite decide_True by left.
        by rewrite lookup_insert_eq, Hnode.
      * rewrite lookup_insert_ne by done.
        destruct (decide (id' ∈ keys)) as [Hk|Hk].
        -- by rewrite decide_True by (by right).
        -- rewrite decide_False; [done|]. by intros [?|?]%elem_of_cons.
Qed.

(** After the second loop every replica is fresh. *)
Lemma refreshInLinks_fresh (g g' : gmap Z proto.GraphNode) :
  refreshInLinks g = Some g' → linksFresh g'.
Proof.
  unfold refreshInLinks. case_decide as Hc; [|done]. intros [= <-].
  intros id u j ref Hu Href.
  rewrite lookup_fmap in Hu. destruct (g !! id) as [u0|] eqn:Hu0; [|done].
  simpl in Hu. injection Hu as <-. simpl in Href.
  rewrite map_lookup_imap in Href.
  destruct (proto.InLinks u0 !! j) as [r0|]; [|done]. simpl in Href.
  destruct (g !! j) as [w0|] eqn:Hw0; [|done]. simpl in Href. injection Href as <-.
  exists (refreshNode g w0). rewrite lookup_fmap, Hw0. done.
Qed.

(** The second loop leaves the ranks and the teleport weights alone. *)
Lemma refreshInLinks_rank (g g' : gmap Z proto.GraphNode) id :
  refreshInLinks g = Some g' →
  proto.Rank <$> g' !! id = proto.Rank <$> g !! id ∧
  proto.E <$> g' !! id = proto.E <$> g !! id.
Proof.
  unfold refreshInLinks. case_decide; [|done]. intros [= <-].
  rewrite lookup_fmap. by destruct (g !! id).
Qed.

(** The last loop prints, for every vertex in the order of the visit, its
    rank divided by [rankSum]. *)
Lemma normalizeAndPrint_out (rankSum : float) (order : list Z) : ∀ g out,
  NoDup order → (∀ id, id ∈ order → is_Some (g !! id)) →
  (normalizeAndPrint rankSum order g out).2 =
    out ++ ((λ id, RankLine id (rankAt g id / rankSum)%float) <$> order).
Proof.
  induction order as [|id order IH]; intros g out Hnd Hin.
  - simpl. by rewrite app_nil_r.
  - apply NoDup_cons in Hnd as [Hid Hnd].
    destruct (Hin id) as [v Hv]; [left|].
    simpl. rewrite Hv. rewrite IH; [|done|].
    + rewrite <- app_assoc. simpl. do 2 f_equal.
      * unfold rankAt. by rewrite Hv.
      * apply list_fmap_ext. intros i id' Hi.
        rewrite rankAt_insert_ne; [done|].
        intros ->. apply Hid. by eapply list_elem_of_lookup_2.
    + intros id' Hid'. rewrite lookup_insert_is_Some'. right. apply Hin. by right.
Qed.

(** [masterWriteQueue] touches only the work queue and the job counter. *)
Lemma masterWriteQueue_frame order broker fn n n' :
  masterWriteQueue order broker fn n = Ok n' →
  State n' = State n ∧ Data n' = Data n ∧ Responses n' = Responses n.
Proof.
  unfold masterWriteQueue. destruct (partition _ _ _); [|done].
  destruct (publish _ _ _ _ _) as [w [e|]]; [done|]. by intros [= <-].
Qed.

(** A pass of [masterWait] that ends in phase [Map] started from a node in
    phase [Wait] has dispatched the graph it found, with the accumulator it
    found. *)
Lemma masterWait_to_Map pagerank cfg printOrder order broker n n' :
  proto.Phase (State n) = Wait →
  masterWait pagerank cfg printOrder order broker n = Ok n' →
  proto.Phase (State n') = Map →
  proto.Graph (State n') = proto.Graph (State n) ∧ Data n' = Data n.
Proof.
  intros Hw. unfold masterWait. case_bool_decide.
  - case_bool_decide.
    + destruct (pagerank _ _ _); [|done]. by intros [= <-].
    + destruct (masterWriteQueue _ _ _ _) as [n1| | |] eqn:Hq; try done.
      intros [= <-] _. apply masterWriteQueue_frame in Hq as (HS & HD & _).
      simpl. by rewrite HS, HD.
  - destruct cfg as [[c t] g]. intros [= <-]. simpl. congruence.
Qed.

(** What [masterConvergence] does when every accumulated id is a vertex and
    every in-link names a vertex: it does not panic; [g'] is the graph after
    its first two loops. *)
Lemma masterConvergence_run (keys sumOrder printOrder : list Z) (n : Node) :
  utils.Keys (Data n) keys →
  dom (Data n) ⊆ dom (proto.Graph (State n)) →
  linksClosed (proto.Graph (State n)) →
  ∃ g',
    dom g' = dom (proto.Graph (State n)) ∧
    (∀ id, id ∈ dom (Data n) → proto.Rank <$> g' !! id = Some (utils.Get id (Data n))) ∧
    (∀ id, id ∉ dom (Data n) →
       proto.Rank <$> g' !! id = proto.Rank <$> proto.Graph (State n) !! id) ∧
    (∀ id, proto.E <$> g' !! id = proto.E <$> proto.Graph (State n) !! id) ∧
    linksFresh g' ∧
    masterConvergence keys sumOrder printOrder n =
      if (proto.Threshold (State n) <?
            fsum ((λ id, abs (utils.Get id (Data n) - rankAt (proto.Graph (State n)) id))
                    <$> keys))%float
      then Ok (setData utils.NewSafeMap (setPhase Wait (setGraph g' n)))
      else Ok (mkNode freshState 0 0 utils.NewSafeMap (Work n)
                 (normalizeAndPrint (fsum ((λ e, proto.Rank e.2) <$> range g' sumOrder))
                    printOrder g' (Stdout n)).2
                 (Broadcasts n)).
Proof.
  intros Hkeys Hdom Hclosed. set (g := proto.Graph (State n)) in *.
  unfold utils.Keys in Hkeys.
  assert (NoDup keys) as Hnd by (rewrite Hkeys; apply NoDup_elements).
  assert (∀ id, id ∈ keys ↔ id ∈ dom (Data n)) as Hmem.
  { intros id. by rewrite Hkeys, elem_of_elements. }
  destruct (commitRanks_spec (Data n) keys 0%float g Hnd) as (g1 & Hrun & Hg1).
  { intros id Hid. apply elem_of_dom, Hdom, Hmem, Hid. }
  assert (dom g1 = dom g) as Hdom1.
  { apply set_eq. intros id. rewrite !elem_of_dom, Hg1.
    case_decide; [|done]. by rewrite fmap_is_Some. }
  assert (linksClosed g1) as Hclosed1.
  { intros id u Hu. rewrite Hg1 in Hu. rewrite Hdom1.
    case_decide.
    - destruct (g !! id) as [u0|] eqn:Hu0; [|done]. injection Hu as <-.
      apply (Hclosed id u0 Hu0).
    - apply (Hclosed id u Hu). }
  assert (refreshInLinks g1 = Some (refreshNode g1 <$> g1)) as Hrefresh.
  { unfold refreshInLinks. by rewrite decide_True. }
  exists (refreshNode g1 <$> g1). split; [|split; [|split; [|split; [|split]]]].
  - by rewrite dom_fmap_L.
  - intros id Hid.
    rewrite (proj1 (refreshInLinks_rank g1 _ id Hrefresh)), Hg1.
    rewrite decide_True by (by apply Hmem).
    apply Hdom, elem_of_dom in Hid as [u Hu]. by rewrite Hu.
  - intros id Hid.
    rewrite (proj1 (refreshInLinks_rank g1 _ id Hrefresh)), Hg1.
    by rewrite decide_False by (by rewrite Hmem).
  - intros id.
    rewrite (proj2 (refreshInLinks_rank g1 _ id Hrefresh)), Hg1.
    case_decide; [|done]. by destruct (g !! id).
  - by eapply refreshInLinks_fresh.
  - unfold masterConvergence. fold g. rewrite Hrun, Hrefresh. unfold fsum at 1.
    destruct (_ <? _)%float; [done|].
    by destruct (normalizeAndPrint _ _ _ _).
Qed.

(** C1 (as amended).  When every accumulated id is a vertex and every
    in-link names a vertex, [masterConvergence] returns; the distance it
    tests is the float sum, in the order of [Data.Keys()], of
    [|Data.Get(id) - Graph[id].Rank|] over the ids of the accumulator; each
    of these ids gets its accumulated value as rank, the other vertices keep
    theirs.  When the distance exceeds the threshold the node goes to [Wait]
    with the updated graph, [C], [Threshold] and the workers retained.
    Otherwise every rank is divided by [rankSum], the float sum of the
    committed ranks in the order of the summing loop, the quotients are
    printed, and the node is reset: fresh [Wait] state with an empty graph,
    [Jobs = 0], [Responses = 0].  Nothing is promised about the sum of the
    quotients. *)
Theorem masterConvergence_delta_and_reset (keys sumOrder printOrder : list Z) (n : Node) :
  utils.Keys (Data n) keys →
  dom (Data n) ⊆ dom (proto.Graph (State n)) →
  linksClosed (proto.Graph (State n)) →
  range_order (proto.Graph (State n)) sumOrder →
  range_order (proto.Graph (State n)) printOrder →
  ∃ g',
    dom g' = dom (proto.Graph (State n)) ∧
    (∀ id, id ∈ dom (Data n) → proto.Rank <$> g' !! id = Some (utils.Get id (Data n))) ∧
    (∀ id, id ∉ dom (Data n) →
       proto.Rank <$> g' !! id = proto.Rank <$> proto.Graph (State n) !! id) ∧
    let delta :=
      fsum ((λ id, abs (utils.Get id (Data n) - rankAt (proto.Graph (State n)) id))%float
              <$> keys) in
    let rankSum := fsum (rankAt g' <$> sumOrder) in
    masterConvergence keys sumOrder printOrder n =
      if (proto.Threshold (State n) <? delta)%float
      then Ok (mkNode (proto.mkState g' (proto.C (State n)) (proto.Threshold (State n))
                                     Wait (proto.Others (State n)))
                      (Jobs n) (Responses n) utils.NewSafeMap (Work n) (Stdout n)
                      (Broadcasts n))
      else Ok (mkNode freshState 0 0 utils.NewSafeMap (Work n)
                 (Stdout n ++ ((λ id, RankLine id (rankAt g' id / rankSum)%float)
                                 <$> printOrder))
                 (Broadcasts n)).
Proof.
  intros Hkeys Hdom Hclosed Hsum Hprint.
  destruct (masterConvergence_run keys sumOrder printOrder n Hkeys Hdom Hclosed)
    as (g' & Hdom' & Hnew & Hold & _ & _ & Hrun).
  exists g'. split; [done|]. split; [done|]. split; [done|]. simpl.
  assert (∀ order, range_order (proto.Graph (State n)) order →
                   ∀ id, id ∈ order → is_Some (g' !! id)) as Hin.
  { intros order Ho id Hid. apply elem_of_dom. rewrite Hdom'. apply elem_of_dom.
    by apply (range_order_elem _ order id Ho). }
  rewrite Hrun. destruct (_ <? _)%float; [done|].
  rewrite range_ranks by eauto.
  rewrite normalizeAndPrint_out by eauto using range_order_NoDup.
  done.
Qed.









(** C10.  When every accumulated id is a vertex and every in-link names a
    vertex, [masterConvergence] returns a node whose accumulator is the
    fresh empty map, whether the distance exceeds the threshold (the run
    iterates, graph retained) or not (the run ends, state reset); and a pass
    of [masterWait] that takes this node to phase [Map] leaves the
    accumulator empty. *)
Theorem convergence_resets_accumulator (keys sumOrder printOrder : list Z) (n : Node) :
  utils.Keys (Data n) keys →
  dom (Data n) ⊆ dom (proto.Graph (State n)) →
  linksClosed (proto.Graph (State n)) →
  ∃ n1, masterConvergence keys sumOrder printOrder n = Ok n1 ∧
    Data n1 = utils.NewSafeMap ∧
    proto.Phase (State n1) = Wait ∧
    (if (proto.Threshold (State n) <?
           fsum ((λ id, abs (utils.Get id (Data n) - rankAt (proto.Graph (State n)) id))
                   <$> keys))%float
     then dom (proto.Graph (State n1)) = dom (proto.Graph (State n))
     else State n1 = freshState) ∧
    ∀ pagerank cfg printOrder' order broker n2,
      masterWait pagerank cfg printOrder' order broker n1 = Ok n2 →
      proto.Phase (State n2) = Map →
      Data n2 = utils.NewSafeMap.
Proof.
  intros Hkeys Hdom Hclosed.
  destruct (masterConvergence_run keys sumOrder printOrder n Hkeys Hdom Hclosed)
    as (g' & Hdom' & _ & _ & _ & _ & Hrun).
  assert (∃ n1, masterConvergence keys sumOrder printOrder n = Ok n1 ∧
                Data n1 = utils.NewSafeMap ∧ proto.Phase (State n1) = Wait ∧
                (if (proto.Threshold (State n) <?
                       fsum ((λ id, abs (utils.Get id (Data n)
                                         - rankAt (proto.Graph (State n)) id)) <$> keys))%float
                 then dom (proto.Graph (State n1)) = dom (proto.Graph (State n))
                 else State n1 = freshState))
    as (n1 & Hn1 & Hdata & Hphase & Hbranch).
  { rewrite Hrun. destruct (_ <? _)%float; eexists; (split; [done|]); by simpl. }
  exists n1. split; [done|]. split; [done|]. split; [done|]. split; [done|].
  intros pagerank cfg printOrder' order broker n2 Hwait Hmap.
  destruct (masterWait_to_Map _ _ _ _ _ _ _ Hphase Hwait Hmap) as [_ Hd].
  by rewrite Hd.
Qed.

(** ** The handlers on the sample inputs *)

Ltac by_computation := refine (bool_decide_unpack _ _); vm_compute; exact I.

Lemma pairNode_keys t : utils.Keys (Data (pairNode t)) [2; 1]%Z.
Proof. unfold utils.Keys. vm_compute. reflexivity. Qed.

Lemma pairNode_ids t : dom (Data (pairNode t)) ⊆ dom (proto.Graph (State (pairNode t))).
Proof. by_computation. Qed.

Lemma pairNode_closed t : linksClosed (proto.Graph (State (pairNode t))).
Proof. unfold linksClosed. by_computation. Qed.

Lemma pairGraph_order : range_order pairGraph [2; 1]%Z.
Proof. unfold range_order. vm_compute. reflexivity. Qed.

(** The counterexample to C1 as stated: one vertex whose old and new rank
    are zero.  The distance is 0, the run ends, the sum of the ranks is 0,
    and the rank that is printed is 0/0: the ranks do not sum to 1. *)
Lemma normalized_ranks_do_not_sum_to_one :
  masterConvergence [1]%Z [1]%Z [1]%Z zeroNode
    = Ok (mkNode freshState 0 0 utils.NewSafeMap [] [RankLine 1 nan] 0) ∧
  (fsum (printedRanks [RankLine 1 nan]) =? 1)%float = false.
Proof. split; vm_compute; reflexivity. Qed.

(** Rounding alone keeps the quotients from summing to 1: for the ranks 1,
    1.125 and 2.25 (sum 4.375, exact) the three quotients add up to less
    than 1. *)
Example normalized_ranks_rounding :
  ∃ n', masterConvergence [1; 2; 3]%Z [1; 2; 3]%Z [1; 2; 3]%Z tripleNode = Ok n' ∧
    State n' = freshState ∧ length (Stdout n') = 3 ∧
    (fsum (printedRanks (Stdout n')) <? 1)%float = true.
Proof. eexists. split; [vm_compute; reflexivity|]. by vm_compute. Qed.

(** An accumulated id that is no vertex makes the handler panic. *)
Example masterConvergence_stray_id :
  masterConvergence [7]%Z [1]%Z [1]%Z strayNode = Panic.
Proof. vm_compute. reflexivity. Qed.

(** The Convergence pass on [pairNode 0.5]: distance 1.75 above the
    threshold. *)
Lemma masterConvergence_delta_and_reset_witness :
  let n := pairNode 0.5 in
  ∃ g',
    dom g' = dom (proto.Graph (State n)) ∧
    (∀ id, id ∈ dom (Data n) → proto.Rank <$> g' !! id = Some (utils.Get id (Data n))) ∧
    (∀ id, id ∉ dom (Data n) →
       proto.Rank <$> g' !! id = proto.Rank <$> proto.Graph (State n) !! id) ∧
    let delta :=
      fsum ((λ id, abs (utils.Get id (Data n) - rankAt (proto.Graph (State n)) id))%float
              <$> [2; 1]%Z) in
    let rankSum := fsum (rankAt g' <$> [2; 1]%Z) in
    masterConvergence [2; 1]%Z [2; 1]%Z [2; 1]%Z n =
      if (proto.Threshold (State n) <? delta)%float
      then Ok (mkNode (proto.mkState g' (proto.C (State n)) (proto.Threshold (State n))
                                     Wait (proto.Others (State n)))
                      (Jobs n) (Responses n) utils.NewSafeMap (Work n) (Stdout n)
                      (Broadcasts n))
      else Ok (mkNode freshState 0 0 utils.NewSafeMap (Work n)
                 (Stdout n ++ ((λ id, RankLine id (rankAt g' id / rankSum)%float)
                                 <$> [2; 1]%Z))
                 (Broadcasts n)).
Proof.
  apply (masterConvergence_delta_and_reset [2; 1]%Z [2; 1]%Z [2; 1]%Z (pairNode 0.5)).
  - apply pairNode_keys.
  - apply pairNode_ids.
  - apply pairNode_closed.
  - apply pairGraph_order.
  - apply pairGraph_order.
Defined.



(** The accumulator after the Convergence pass on [pairNode 2], where the
    run ends. *)
Lemma convergence_resets_accumulator_witness :
  ∃ n1, masterConvergence [2; 1]%Z [2; 1]%Z [2; 1]%Z (pairNode 2) = Ok n1 ∧
    Data n1 = utils.NewSafeMap ∧
    proto.Phase (State n1) = Wait ∧
    (if (proto.Threshold (State (pairNode 2)) <?
           fsum ((λ id, abs (utils.Get id (Data (pairNode 2))
                             - rankAt (proto.Graph (State (pairNode 2))) id))
                   <$> [2; 1]%Z))%float
     then dom (proto.Graph (State n1)) = dom (proto.Graph (State (pairNode 2)))
     else State n1 = freshState) ∧
    ∀ pagerank cfg printOrder' order broker n2,
      masterWait pagerank cfg printOrder' order broker n1 = Ok n2 →
      proto.Phase (State n2) = Map →
      Data n2 = utils.NewSafeMap.
Proof.
  apply (convergence_resets_accumulator [2; 1]%Z [2; 1]%Z [2; 1]%Z (pairNode 2)).
  - apply pairNode_keys.
  - apply pairNode_ids.
  - apply pairNode_closed.
Defined.

(** [pairGraph] split into two shards. *)
Lemma partition_round_robin_witness :
  ∃ subGraphs, partition 2 pairGraph [2; 1]%Z = Some subGraphs ∧ length subGraphs = 2 ∧
    (∀ i id, [2; 1]%Z !! i = Some id →
       ∃ sg, subGraphs !! (i mod 2) = Some sg ∧ is_Some (sg !! id) ∧
             sg !! id = pairGraph !! id) ∧
    ⋃ (dom <$> subGraphs) = dom pairGraph ∧
    (∀ a b sa sb, a ≠ b → subGraphs !! a = Some sa → subGraphs !! b = Some sb →
       dom sa ## dom sb).
Proof.
  apply (partition_round_robin pairGraph 2 [2; 1]%Z).
  - lia.
  - vm_compute. lia.
  - apply pairGraph_order.
Defined.

(** ** The result consumer *)

Lemma foldInto_app l1 l2 data : foldInto (l1 ++ l2) data = foldInto l2 (foldInto l1 data).
Proof. unfold foldInto. apply foldl_app. Qed.

Lemma concat_values_snoc (l : list Delivery) d :
  concat (values <$> (l ++ [d])) = concat (values <$> l) ++ values d.
Proof. rewrite fmap_app, concat_app. simpl. by rewrite app_nil_r. Qed.

Lemma counted_snoc (l : list Delivery) d :
  length (filter (λ d, counted d = true) (l ++ [d])) =
    length (filter (λ d, counted d = true) l) + (if counted d then 1 else 0).
Proof.
  rewrite filter_app, length_app. f_equal.
  destruct (counted d) eqn:Hd.
  - by rewrite filter_cons_True.
  - rewrite filter_cons_False; [done|]. by rewrite Hd.
Qed.

Lemma counted_all (l : list Delivery) :
  length (filter (λ d, counted d = true) l) = length l →
  Forall (λ d, counted d = true) l.
Proof.
  induction l as [|d l IH]; intros Hlen; [constructor|].
  pose proof (length_filter (λ d, counted d = true) l) as Hle.
  destruct (decide (counted d = true)) as [Hd|Hd].
  - rewrite filter_cons_True in Hlen by done. simpl in Hlen.
    constructor; [done|]. apply IH. lia.
  - rewrite filter_cons_False in Hlen by done. simpl in Hlen. lia.
Qed.

Lemma consumer_inv_start data inbox : consumer_inv data inbox (consumer_start data inbox).
Proof. repeat split. Qed.

Lemma values_Some d l : Body d = Some l → values d = l.
Proof. unfold values. by intros ->. Qed.

Lemma values_None d : Body d = None → values d = [].
Proof. unfold values. by intros ->. Qed.

Lemma counted_Some d l : Body d = Some l → counted d = AckOk d.
Proof. unfold counted. by intros ->. Qed.

Lemma counted_None d : Body d = None → counted d = false.
Proof. unfold counted. by intros ->. Qed.

(** Every action of the consumer keeps the invariant. *)
Lemma consumer_inv_step data inbox c :
  consumer_inv data inbox c → consumer_inv data inbox (consumer_step c).
Proof.
  destruct c as [cd cr pc ci ch]. unfold consumer_inv, consumer_step. simpl.
  intros (Hq & Hpc & Hdata & Hresp).
  destruct pc as [|d folded [|[id v] rest]|d]; simpl in *.
  - destruct ci as [|d ci]; simpl; [done|].
    destruct (Body d) as [vals|] eqn:Hbody; simpl.
    + repeat split; done.
    + rewrite concat_values_snoc, counted_snoc, <- app_assoc.
      rewrite (values_None d Hbody), (counted_None d Hbody).
      rewrite !app_nil_r in *. repeat split; [done|done|lia].
  - rewrite app_nil_r in Hpc.
    destruct (AckOk d) eqn:Hack; simpl.
    + rewrite (values_Some d _ Hpc), (counted_Some d _ Hpc). repeat split; done.
    + rewrite concat_values_snoc, counted_snoc, <- app_assoc.
      rewrite (values_Some d _ Hpc), (counted_Some d _ Hpc), Hack.
      rewrite app_nil_r. repeat split; [done|done|lia].
  - repeat split; [done| |  |done].
    + by rewrite <- app_assoc.
    + rewrite app_assoc, foldInto_app. simpl. rewrite <- Hdata. done.
  - rewrite concat_values_snoc, counted_snoc, <- app_assoc, Hpc.
    rewrite app_nil_r. repeat split; [done|done|lia].
Qed.

Lemma consumer_inv_run data inbox k : ∀ c,
  consumer_inv data inbox c → consumer_inv data inbox (consumer_run k c).
Proof.
  induction k as [|k IH]; intros c Hc; [done|].
  simpl. apply IH. by apply consumer_inv_step.
Qed.

(** [Responses] moves only in the action that follows the acknowledgement,
    and then by one. *)
Lemma consumer_step_responses c :
  cResponses (consumer_step c) = cResponses c ∨
  ∃ d, cPc c = Counting d ∧ cResponses (consumer_step c) = cResponses c + 1.
Proof.
  destruct c as [cd cr pc ci ch]. unfold consumer_step. simpl.
  destruct pc as [|d folded [|[id v] rest]|d]; simpl.
  - left. destruct ci as [|d ci]; [done|]. by destruct (Body d).
  - left. by destruct (AckOk d).
  - by left.
  - right. eauto.
Qed.

(** C6 (as amended).  Take the consumer [k] actions into a phase that
    started with [Responses = 0].  [Responses] counts exactly the messages
    that were decoded, folded pair by pair into the accumulator and
    acknowledged; the accumulator holds every pair of every message handled
    so far (and the pairs folded of the message at hand); the counter moves
    only in the action after the acknowledgement.  Let [jobs] be the jobs
    published for the phase and [answer job] the result message the
    workers return for [job].  When the result queue delivers exactly these
    results, each once and in any order, [Responses] never exceeds the
    number of jobs; when it equals it the consumer is idle, the result of
    every published job has been handled and counted, and the accumulator
    holds all their pairs.  So a pass of the driver loop that, in phase
    [Map] or [Reduce] with [jobs] at the end of the work queue and
    [Jobs = |jobs|], sees the consumer's [Responses] and accumulator and
    leaves the phase, leaves it with the pairs of the result of every
    published job in the accumulator. *)
Theorem responses_count_absorbed_messages (data : gmap Z float)
    (answer : proto.Job → Delivery) (jobs : list proto.Job)
    (inbox : list Delivery) (k : nat) :
  let c := consumer_run k (consumer_start data inbox) in
  cResponses c = length (filter (λ d, counted d = true) (cHandled c)) ∧
  cData c = foldInto (concat (values <$> cHandled c) ++ inProgress (cPc c)) data ∧
  (∀ d, cPc c = Counting d →
     AckOk d = true ∧ Body d = Some (values d) ∧ inProgress (cPc c) = values d) ∧
  (cResponses (consumer_step c) = cResponses c ∨
   ∃ d, cPc c = Counting d ∧ cResponses (consumer_step c) = cResponses c + 1) ∧
  (inbox ≡ₚ answer <$> jobs →
     cResponses c ≤ length jobs ∧
     (cResponses c = length jobs →
        cPc c = AwaitMsg ∧ cHandled c ≡ₚ answer <$> jobs ∧
        (∀ job, job ∈ jobs → answer job ∈ cHandled c ∧ counted (answer job) = true) ∧
        cData c = foldInto (concat (values <$> cHandled c)) data) ∧
     (∀ env n n',
        proto.Phase (State n) = Map ∨ proto.Phase (State n) = Reduce →
        (jobs `suffix_of` Work n) → Jobs n = length jobs →
        Responses n = cResponses c → Data n = cData c →
        masterUpdate env n = Ok n' →
        proto.Phase (State n') ≠ proto.Phase (State n) →
        (∀ job, job ∈ jobs → answer job ∈ cHandled c) ∧
        Data n' = foldInto (concat (values <$> cHandled c)) data)).
Proof.
  intros c.
  destruct (consumer_inv_run data inbox k _ (consumer_inv_start data inbox))
    as (Hq & Hpc & Hdata & Hresp). fold c in Hq, Hpc, Hdata, Hresp.
  split; [done|]. split; [done|]. split; [|split; [apply consumer_step_responses|]].
  { intros d Hd. rewrite Hd in Hpc |- *. simpl in Hpc.
    destruct (Body d) as [l|] eqn:Hbody.
    - rewrite (counted_Some d l Hbody) in Hpc. simpl.
      by rewrite (values_Some d l Hbody).
    - by rewrite (counted_None d Hbody) in Hpc. }
  intros Hperm.
  pose proof (Permutation_length Hperm) as HK. rewrite length_fmap in HK.
  pose proof (length_filter (λ d, counted d = true) (cHandled c)) as Hle.
  assert (length (cHandled c) + length (current (cPc c)) + length (cInbox c)
          = length inbox) as Hlen.
  { rewrite <- Hq, !length_app. lia. }
  assert (cResponses c = length jobs →
            cPc c = AwaitMsg ∧ cHandled c ≡ₚ answer <$> jobs ∧
            (∀ job, job ∈ jobs → answer job ∈ cHandled c ∧ counted (answer job) = true) ∧
            cData c = foldInto (concat (values <$> cHandled c)) data) as Hfull.
  { intros HrK.
    assert (length (cHandled c) = length inbox ∧ current (cPc c) = [] ∧ cInbox c = [])
      as (Hall & Hcur & Hin).
    { split; [lia|]. split; apply nil_length_inv; lia. }
    assert (cPc c = AwaitMsg) as Hidle by (by destruct (cPc c)).
    rewrite Hcur, Hin, !app_nil_r in Hq.
    assert (Forall (λ d, counted d = true) (cHandled c)) as Hcounted
      by (apply counted_all; lia).
    split; [done|]. split; [by rewrite Hq|]. split.
    - intros job Hjob.
      assert (answer job ∈ cHandled c) as Hin'.
      { rewrite Hq, Hperm. by apply list_elem_of_fmap_2. }
      split; [done|]. by apply (proj1 (Forall_forall _ _) Hcounted).
    - rewrite Hdata, Hidle. simpl. by rewrite app_nil_r. }
  split; [lia|]. split; [exact Hfull|].
  intros env n n' Hphase _ HJ HR HD Hrun Hleft. unfold masterUpdate in Hrun.
  destruct Hphase as [Hp|Hp]; rewrite Hp in Hrun, Hleft;
    (case_bool_decide as Heq;
     [injection Hrun as <-; simpl; rewrite HD;
      destruct Hfull as (_ & _ & Hall & Hacc); [congruence|];
      split; [intros job Hjob; by apply Hall|done]
     |injection Hrun as <-; congruence]).
Qed.


(** ** The Wait handler without workers *)

Lemma printRanks_order (g : gmap Z proto.GraphNode) (order : list Z) :
  range_order g order →
  printRanks g order = (λ id, RankLine id (rankAt g id)) <$> order.
Proof.
  intros Hord. unfold printRanks.
  assert (∀ k, k ∈ order → is_Some (g !! k)) as Hin.
  { intros k Hk. by apply (range_order_elem g order k Hord). }
  clear Hord. induction order as [|k order IH]; [done|].
  destruct (Hin k) as [v Hv]; [left|].
  rewrite (range_cons_Some _ _ v) by done. simpl. unfold rankAt at 1. rewrite Hv. simpl.
  f_equal. apply IH. intros k' Hk'. apply Hin. by right.
Qed.

(** C9.  In phase Wait with a non-empty graph and no workers, when the
    single-node PageRank returns the graph [g'], [masterWait] returns nil;
    it has printed the rank of every vertex of [g'] and installed the fresh
    state (empty graph, [C = 0], [Threshold = 0], phase [Wait]), [Jobs = 0],
    [Responses = 0] and a fresh accumulator, publishing nothing.  The next
    pass of [masterWait] then finds no graph and runs the configuration
    dialogue: it prompts and installs what the dialogue yields. *)
Theorem masterWait_single_node
    (pagerank : gmap Z proto.GraphNode → float → float → option (gmap Z proto.GraphNode))
    (cfg : float * float * gmap Z proto.GraphNode) (printOrder order : list Z)
    (broker : nat → proto.Job → option error) (n : Node) (g' : gmap Z proto.GraphNode) :
  0 < size (proto.Graph (State n)) →
  proto.Others (State n) = [] →
  pagerank (proto.Graph (State n)) (proto.C (State n)) (proto.Threshold (State n)) = Some g' →
  range_order g' printOrder →
  ∃ n1, masterWait pagerank cfg printOrder order broker n = Ok n1 ∧
    proto.Graph (State n1) = ∅ ∧
    proto.C (State n1) = 0%float ∧
    proto.Threshold (State n1) = 0%float ∧
    proto.Phase (State n1) = Wait ∧
    Jobs n1 = 0 ∧ Responses n1 = 0 ∧
    Data n1 = utils.NewSafeMap ∧
    Work n1 = Work n ∧
    Stdout n1 = Stdout n ++ ((λ id, RankLine id (rankAt g' id)) <$> printOrder) ∧
    ∀ pagerank' c t g printOrder' order' broker',
      masterWait pagerank' (c, t, g) printOrder' order' broker' n1 =
        Ok (mkNode (proto.mkState g c t Wait (proto.Others (State n1))) 0 0
                   utils.NewSafeMap (Work n1) (Stdout n1 ++ [PromptLine]) (Broadcasts n1)).
Proof.
  intros Hg Hothers Hrun Hord. unfold masterWait at 1.
  rewrite bool_decide_eq_true_2 by done.
  rewrite bool_decide_eq_true_2 by (by rewrite Hothers).
  rewrite Hrun. eexists. split; [done|]. simpl.
  rewrite (printRanks_order g' printOrder Hord).
  repeat (split; [done|]).
  intros pagerank' c t g printOrder' order' broker'. reflexivity.
Qed.

(** The Wait pass on [soloNode]. *)
Lemma masterWait_single_node_witness :
  ∃ n1, masterWait idlePageRank (0.5%float, 0.5%float, pairGraph) [2; 1]%Z [2; 1]%Z
                   reliableBroker soloNode = Ok n1 ∧
    proto.Graph (State n1) = ∅ ∧
    proto.C (State n1) = 0%float ∧
    proto.Threshold (State n1) = 0%float ∧
    proto.Phase (State n1) = Wait ∧
    Jobs n1 = 0 ∧ Responses n1 = 0 ∧
    Data n1 = utils.NewSafeMap ∧
    Work n1 = Work soloNode ∧
    Stdout n1 = Stdout soloNode ++ ((λ id, RankLine id (rankAt pairGraph id)) <$> [2; 1]%Z) ∧
    ∀ pagerank' c t g printOrder' order' broker',
      masterWait pagerank' (c, t, g) printOrder' order' broker' n1 =
        Ok (mkNode (proto.mkState g c t Wait (proto.Others (State n1))) 0 0
                   utils.NewSafeMap (Work n1) (Stdout n1 ++ [PromptLine]) (Broadcasts n1)).
Proof.
  apply (masterWait_single_node idlePageRank (0.5%float, 0.5%float, pairGraph)
           [2; 1]%Z [2; 1]%Z reliableBroker soloNode pairGraph).
  - vm_compute. lia.
  - reflexivity.
  - reflexivity.
  - apply pairGraph_order.
Defined.

(** ** The Collect handler without workers *)



(** C8, on [collectNode].  The degenerate branch computes the new rank
    [0.5 * 2 + 0.5 * 1 = 1.5] of vertex 1, but the node it returns differs
    from the one it was given in the phase only: the accumulator still holds
    the un-reduced sum 2, and that is the rank the following Convergence
    pass commits. *)
Theorem masterCollect_drops_local_ranks :
  localRanks collectNode = {[1%Z := 1.5%float]} ∧
  (∀ order broker,
     masterCollect order broker collectNode = Ok (setPhase Convergence collectNode)) ∧
  Data (setPhase Convergence collectNode) = {[1%Z := 2%float]} ∧
  ∃ n', masterConvergence [1]%Z [1]%Z [1]%Z (setPhase Convergence collectNode) = Ok n' ∧
    proto.Rank <$> proto.Graph (State n') !! 1%Z = Some 2%float.
Proof.
  split; [by vm_compute|]. split; [intros order broker; reflexivity|].
  split; [by vm_compute|]. eexists. split; vm_compute; reflexivity.
Qed.

(** ** The broadcaster *)

Lemma removeCrashed_none (others : list string) : removeCrashed ∅ others = others.
Proof.
  unfold removeCrashed.
  change (imap pair others) with (imap (λ i (x : string), (id i, x)) others).
  generalize (@id nat) as f.
  induction others as [|v others IH]; intros f; [done|].
  simpl. f_equal. apply (IH (f ∘ S)).
Qed.

Lemma contactWorkers_Some peers others : ∀ i,
  contactWorkers peers i others = Some tt ↔ Forall (λ w, peers w = Acks) others.
Proof.
  induction others as [|v others IH]; intros i; simpl.
  - split; [constructor|done].
  - destruct (peers v) eqn:Hv; rewrite ?IH; split;
      try done; try (intros HF; inversion HF; congruence).
    intros HF. by constructor.
Qed.

(** X2.  The broadcaster as written: it returns only when every worker
    acknowledged, and then leaves [Others] as it was; as soon as one worker
    is unreachable or fails the RPC it never returns, and [Others] keeps
    that worker. *)
Lemma masterSendUpdateToWorkers_outcome peers n :
  (Forall (λ w, peers w = Acks) (proto.Others (State n)) ∧
   masterSendUpdateToWorkers peers n = Ok (setOthers (proto.Others (State n)) n)) ∨
  (Exists (λ w, peers w ≠ Acks) (proto.Others (State n)) ∧
   masterSendUpdateToWorkers peers n = Hang n).
Proof.
  unfold masterSendUpdateToWorkers.
  destruct (contactWorkers peers 0 (proto.Others (State n))) as [[]|] eqn:Hc.
  - left. split; [by apply (contactWorkers_Some peers _ 0)|].
    by rewrite removeCrashed_none.
  - right. split; [|done]. apply not_Forall_Exists; [solve_decision|].
    intros HF. apply (contactWorkers_Some peers _ 0) in HF. congruence.
Qed.

(** C4, on two workers of which [w2] fails the RPC.  The broadcaster never
    returns and [Others] still lists [w2]; the survivors would be [w1]. *)
Theorem broadcast_hangs_on_crashed_worker :
  proto.Others (State (pairNode 0.5)) = ["w1"; "w2"] ∧
  crashedPeer "w1" = Acks ∧ crashedPeer "w2" = RpcFails ∧
  masterSendUpdateToWorkers crashedPeer (pairNode 0.5) = Hang (pairNode 0.5).
Proof. repeat split. Qed.

(** ** The number of jobs *)

(** C3, on the earlier revision of [masterCollect].  One worker and one
    vertex: the number of jobs is 0 instead of 1 and the partition loop
    panics on [subGraphs[0]].  Two workers and two vertices: one job is
    published instead of two. *)
Theorem legacy_masterCollect_number_of_jobs :
  Legacy.numberOfJobs (Legacy.State (legacyNode ["w1"] [1]%Z)) = 0%Z ∧
  (∀ broker, Legacy.masterCollect [1]%Z broker (legacyNode ["w1"] [1]%Z) = Panic) ∧
  ∃ n', Legacy.masterCollect [2; 1]%Z reliableBroker (legacyNode ["w1"; "w2"] [1; 2]%Z)
          = Ok n' ∧
    Legacy.Jobs (Legacy.State n') = 1%Z ∧ length (Legacy.Work n') = 1 ∧
    length (Legacy.Others (Legacy.State n')) `min` size (Legacy.Graph (Legacy.State n')) = 2.
Proof.
  split; [by vm_compute|]. split; [intros; by vm_compute|].
  eexists. split; [vm_compute; reflexivity|]. by vm_compute.
Qed.

(** X1.  The current [masterWriteQueue]: with at least one worker and one vertex
    the number of jobs is [min(|Others|, |Graph|)], lies between 1 and that
    minimum, and is the number of messages a successful dispatch publishes
    and the value it stores in [Jobs]. *)
Theorem numberOfJobs_bounds (order : list Z) (broker : nat → proto.Job → option error)
    (fn : gmap Z proto.GraphNode → proto.Job) (n : Node) :
  proto.Others (State n) ≠ [] → proto.Graph (State n) ≠ ∅ →
  numberOfJobs n = length (proto.Others (State n)) `min` size (proto.Graph (State n)) ∧
  1 ≤ numberOfJobs n ∧
  numberOfJobs n ≤ length (proto.Others (State n)) ∧
  numberOfJobs n ≤ size (proto.Graph (State n)) ∧
  ∀ n', range_order (proto.Graph (State n)) order →
    masterWriteQueue order broker fn n = Ok n' →
    Jobs n' = numberOfJobs n ∧ length (Work n') = length (Work n) + numberOfJobs n.
Proof.
  intros Ho Hg. rewrite numberOfJobs_min.
  assert (0 < length (proto.Others (State n))) by (destruct (proto.Others (State n)); simpl; [done|lia]).
  assert (0 < size (proto.Graph (State n))).
  { apply Nat.neq_0_lt_0. intros Hsz. by apply map_size_empty_inv in Hsz. }
  split; [done|]. split; [lia|]. split; [lia|]. split; [lia|].
  intros n' Hord Hrun.
  destruct (masterWriteQueue_partition order n Ho Hord) as (subs & Hpart & Hlen).
  unfold masterWriteQueue in Hrun. rewrite Hpart in Hrun.
  destruct (publish fn broker 0 subs (Work n)) as [w [e|]] eqn:Hpub; [done|].
  injection Hrun as <-. simpl. rewrite <- numberOfJobs_min. split; [done|].
  assert (∀ subs idx work w, publish fn broker idx subs work = (w, None) →
            length w = length work + length subs) as Hcount.
  { clear. induction subs as [|sg subs IH]; intros idx work w; simpl.
    - intros [= <-]. lia.
    - destruct (broker idx (fn sg)); [done|]. intros Hp%IH.
      rewrite Hp, length_app. simpl. lia. }
  rewrite (Hcount _ _ _ _ Hpub). lia.
Qed.

(** ** The remaining properties on the sample inputs *)

(** The Map dispatch of [pairNode 0.5] through a broker that accepts every
    job. *)
Lemma masterWriteQueue_jobs_after_publish_witness :
  let n := pairNode 0.5 in
  ∃ subGraphs,
    partition (numberOfJobs n) (proto.Graph (State n)) [2; 1]%Z = Some subGraphs ∧
    length subGraphs = numberOfJobs n ∧
    ((∀ i sg, subGraphs !! i = Some sg → reliableBroker i (mapJob sg) = None) →
       ∃ n', masterWriteQueue [2; 1]%Z reliableBroker mapJob n = Ok n' ∧
         Jobs n' = numberOfJobs n ∧
         Work n' = Work n ++ (mapJob <$> subGraphs) ∧
         n' = setJobs (numberOfJobs n) (setWork (Work n') n)) ∧
    (∀ i sg e, subGraphs !! i = Some sg → reliableBroker i (mapJob sg) = Some e →
       (∀ j sg', j < i → subGraphs !! j = Some sg' → reliableBroker j (mapJob sg') = None) →
       ∃ n', masterWriteQueue [2; 1]%Z reliableBroker mapJob n = Err e n' ∧
         Jobs n' = Jobs n ∧
         Work n' = Work n ++ (mapJob <$> take i subGraphs) ∧
         n' = setWork (Work n') n) ∧
    (∀ pagerank cfg printOrder e n',
       0 < size (proto.Graph (State n)) →
       masterWriteQueue [2; 1]%Z reliableBroker mapJob (spawnBroadcast n) = Err e n' →
       Jobs n' = Jobs n ∧
       masterWait pagerank cfg printOrder [2; 1]%Z reliableBroker n = Err e n') ∧
    (∀ e n',
       masterWriteQueue [2; 1]%Z reliableBroker (reduceJob (utils.Clone (Data n)))
         (setData (utils.Reset (Data n)) (spawnBroadcast n)) = Err e n' →
       Jobs n' = Jobs n ∧
       masterCollect [2; 1]%Z reliableBroker n = Err e n').
Proof.
  apply (masterWriteQueue_jobs_after_publish [2; 1]%Z reliableBroker mapJob (pairNode 0.5)).
  - discriminate.
  - apply pairGraph_order.
Defined.

(** The consumer eight actions into the results of [pairJobs], delivered in
    the order opposite to that of the jobs. *)
Lemma responses_count_absorbed_messages_witness :
  let c := consumer_run 8 (consumer_start ∅ [echo jobOfOne; echo jobOfTwo]) in
  cResponses c = length (filter (λ d, counted d = true) (cHandled c)) ∧
  cData c = foldInto (concat (values <$> cHandled c) ++ inProgress (cPc c)) ∅ ∧
  (∀ d, cPc c = Counting d →
     AckOk d = true ∧ Body d = Some (values d) ∧ inProgress (cPc c) = values d) ∧
  (cResponses (consumer_step c) = cResponses c ∨
   ∃ d, cPc c = Counting d ∧ cResponses (consumer_step c) = cResponses c + 1) ∧
  cResponses c ≤ length pairJobs ∧
  (cResponses c = length pairJobs →
     cPc c = AwaitMsg ∧ cHandled c ≡ₚ echo <$> pairJobs ∧
     (∀ job, job ∈ pairJobs → echo job ∈ cHandled c ∧ counted (echo job) = true) ∧
     cData c = foldInto (concat (values <$> cHandled c)) ∅) ∧
  (∀ env n n',
     proto.Phase (State n) = Map ∨ proto.Phase (State n) = Reduce →
     (pairJobs `suffix_of` Work n) → Jobs n = length pairJobs →
     Responses n = cResponses c → Data n = cData c →
     masterUpdate env n = Ok n' →
     proto.Phase (State n') ≠ proto.Phase (State n) →
     (∀ job, job ∈ pairJobs → echo job ∈ cHandled c) ∧
     Data n' = foldInto (concat (values <$> cHandled c)) ∅).
Proof.
  destruct (responses_count_absorbed_messages ∅ echo pairJobs
              [echo jobOfOne; echo jobOfTwo] 8)
    as (Hcount & Hacc & Hpc & Hstep & Hall).
  destruct (Hall (Permutation_swap _ _ _)) as (Hle & Hfull & Hdriver).
  repeat (split; [assumption|]). exact Hdriver.
Defined.

(** The counterexample to C6 as stated.  The Wait pass on [waitingPair]
    publishes the two jobs of [pairJobs] and enters [Map] with [Jobs = 2];
    only the result of [jobOfTwo] contributes to vertex 2.  The queue
    delivers the result of [jobOfOne] twice and that of [jobOfTwo] not at
    all.  After eight actions of the consumer [Responses] is 2; the result
    of [jobOfTwo] is not among the messages handled, and the accumulator has
    nothing for vertex 2.  The driver sees [Responses = Jobs] and goes to
    [Collect] with that accumulator. *)
Lemma responses_equal_jobs_without_every_result :
  let c := consumer_run 8 (consumer_start ∅ redelivered) in
  ∃ n1 n2,
    masterUpdate pairEnv waitingPair = Ok n1 ∧
    proto.Phase (State n1) = Map ∧ Work n1 = pairJobs ∧ Jobs n1 = length pairJobs ∧
    Forall (λ d, ∃ job, job ∈ pairJobs ∧ d = echo job) redelivered ∧
    cResponses c = Jobs n1 ∧ cPc c = AwaitMsg ∧ cInbox c = [] ∧
    jobOfTwo ∈ pairJobs ∧ (2%Z, 0.25%float) ∈ values (echo jobOfTwo) ∧
    (echo jobOfTwo ∉ cHandled c) ∧
    cData c !! 2%Z = None ∧
    masterUpdate pairEnv (setResponses (cResponses c) (setData (cData c) n1)) = Ok n2 ∧
    proto.Phase (State n2) = Collect ∧
    Data n2 !! 2%Z = None.
Proof.
  intros c.
  assert (c = mkConsumer {[1%Z := 0.5%float]} 2 AwaitMsg [] redelivered) as ->
    by (vm_compute; reflexivity).
  eexists _, _. split; [vm_compute; reflexivity|].
  split; [reflexivity|]. split; [vm_compute; reflexivity|]. split; [reflexivity|].
  split.
  { repeat constructor; exists jobOfOne; (split; [right; left|reflexivity]). }
  split; [reflexivity|]. split; [reflexivity|]. split; [reflexivity|].
  split; [left|]. split; [vm_compute; left|]. split.
  { simpl. intros Hin. vm_compute in Hin.
    repeat (apply elem_of_cons in Hin as [Hin|Hin]; [discriminate|]).
    by apply elem_of_nil in Hin. }
  split; [by vm_compute|]. split; [vm_compute; reflexivity|].
  split; [reflexivity|]. by vm_compute.
Qed.


(** After nine actions on [twoResults] both messages are counted. *)
Example twoResults_counted :
  cResponses (consumer_run 9 (consumer_start ∅ twoResults)) = 2 ∧
  cData (consumer_run 9 (consumer_start ∅ twoResults))
    = {[1%Z := 0.625%float; 2%Z := 0.25%float]}.
Proof. split; by vm_compute. Qed.

(** Two workers and two vertices: two jobs. *)
Lemma numberOfJobs_bounds_witness :
  let n := pairNode 0.5 in
  numberOfJobs n = length (proto.Others (State n)) `min` size (proto.Graph (State n)) ∧
  1 ≤ numberOfJobs n ∧
  numberOfJobs n ≤ length (proto.Others (State n)) ∧
  numberOfJobs n ≤ size (proto.Graph (State n)) ∧
  ∀ n', range_order (proto.Graph (State n)) [2; 1]%Z →
    masterWriteQueue [2; 1]%Z reliableBroker mapJob n = Ok n' →
    Jobs n' = numberOfJobs n ∧ length (Work n') = length (Work n) + numberOfJobs n.
Proof.
  apply (numberOfJobs_bounds [2; 1]%Z reliableBroker mapJob (pairNode 0.5)).
  - discriminate.
  - intros Hempty. assert (size pairGraph = 0) as Hsz by (simpl in Hempty; by rewrite Hempty).
    vm_compute in Hsz. discriminate.
Defined.



(** ** How even the partition is *)

Section assign_sizes.
Context {A : Type}.
Implicit Types (es : list (Z * A)) (subs : list (gmap Z A)).

Lemma share_succ K p j :
  0 < K → j < K →
  share K (S p) j = share K p j + (if decide (j = p mod K) then 1 else 0).
Proof.
  intros HK Hj. unfold share.
  pose proof (Nat.div_mod_eq p K) as Hp.
  pose proof (Nat.mod_upper_bound p K ltac:(lia)) as Hpm.
  destruct (decide (p mod K + 1 = K)) as [Hlast|Hlast].
  - assert (S p = K * (p / K + 1) + 0) as Hsp by lia.
    assert (S p / K = p / K + 1 ∧ S p mod K = 0) as [Hd Hm].
    { symmetry in Hsp. split.
      - symmetry. eapply (Nat.div_unique (S p) K _ 0); [lia|]. lia.
      - symmetry. eapply (Nat.mod_unique (S p) K (p / K + 1) 0); [lia|]. lia. }
    rewrite Hd, Hm. repeat case_decide; lia.
  - assert (S p = K * (p / K) + (p mod K + 1)) as Hsp by lia.
    assert (S p / K = p / K ∧ S p mod K = p mod K + 1) as [Hd Hm].
    { split.
      - symmetry. eapply (Nat.div_unique (S p) K _ (p mod K + 1)); [lia|]. lia.
      - symmetry. eapply (Nat.mod_unique (S p) K (p / K) (p mod K + 1)); [lia|]. lia. }
    rewrite Hd, Hm. repeat case_decide; lia.
Qed.

(** The loop resumed after [p] vertices, at index [p mod K], with shards of
    the sizes [share K p]: it ends with shards of the sizes
    [share K (p + |es|)]. *)
Lemma assign_sizes K es : ∀ p subs subs',
  0 < K → length subs = K → NoDup es.*1 →
  (∀ j sg k, subs !! j = Some sg → is_Some (sg !! k) → k ∉ es.*1) →
  (∀ j sg, subs !! j = Some sg → size sg = share K p j) →
  assign K es (p mod K) subs = Some subs' →
  ∀ j sg', subs' !! j = Some sg' → size sg' = share K (p + length es) j.
Proof.
  induction es as [|[id node] es IH]; intros p subs subs' HK Hlen Hnd Hfresh Hsz Hrun.
  - injection Hrun as <-. intros j sg' Hj. rewrite Nat.add_0_r. by apply Hsz.
  - simpl in Hnd. apply NoDup_cons in Hnd as [Hid Hnd].
    pose proof (Nat.mod_upper_bound p K ltac:(lia)) as Hpm.
    simpl in Hrun.
    destruct (subs !! (p mod K)) as [sg|] eqn:Hsg; [|done].
    destruct K as [|K']; [lia|]. set (K := S K') in *.
    assert ((p mod K + 1) mod K = S p mod K) as Hnext.
    { replace (S p) with (p + 1) by lia.
      rewrite (Nat.Div0.add_mod p 1 K). rewrite Nat.Div0.add_mod_idemp_r. done. }
    rewrite Hnext in Hrun.
    intros j sg' Hj.
    replace (p + length ((id, node) :: es)) with (S p + length es) by (simpl; lia).
    eapply (IH (S p) _ subs' HK); [| |  | |exact Hrun|exact Hj].
    + by rewrite length_insert.
    + done.
    + intros j0 sg1 k Hj0 Hk Hin.
      destruct (decide (j0 = p mod K)) as [->|Hne].
      * rewrite list_lookup_insert_eq in Hj0 by lia. injection Hj0 as <-.
        destruct (decide (k = id)) as [->|Hkid]; [done|].
        rewrite lookup_insert_ne in Hk by done.
        apply (Hfresh _ sg k Hsg Hk). simpl. by right.
      * rewrite list_lookup_insert_ne in Hj0 by done.
        apply (Hfresh j0 sg1 k Hj0 Hk). simpl. by right.
    + intros j0 sg1 Hj0.
      assert (j0 < K) as Hj0K.
      { apply lookup_lt_Some in Hj0. by rewrite length_insert, Hlen in Hj0. }
      destruct (decide (j0 = p mod K)) as [->|Hne]; rewrite share_succ by done.
      * rewrite list_lookup_insert_eq in Hj0 by lia. injection Hj0 as <-.
        rewrite decide_True by done.
        rewrite map_size_insert_None.
        -- rewrite (Hsz _ sg Hsg). lia.
        -- destruct (sg !! id) as [x|] eqn:Hx; [|done].
           exfalso. apply (Hfresh _ sg id Hsg); [eauto|]. simpl. by left.
      * rewrite list_lookup_insert_ne in Hj0 by done.
        rewrite decide_False by done. rewrite (Hsz j0 sg1 Hj0). lia.
Qed.

End assign_sizes.

(** The sizes of the shards of a partition. *)
Lemma partition_share {A : Type} (g : gmap Z A) (K : nat) (order : list Z)
    (subGraphs : list (gmap Z A)) :
  1 ≤ K → range_order g order → partition K g order = Some subGraphs →
  ∀ j sg, subGraphs !! j = Some sg → size sg = share K (size g) j.
Proof.
  intros HK Hord Hrun.
  assert (∀ k, k ∈ order → is_Some (g !! k)) as Hin.
  { intros k Hk. by apply (range_order_elem g order k Hord). }
  intros j sg Hj.
  rewrite <- (range_order_length g order Hord).
  replace (length order) with (0 + length (range g order)).
  2:{ rewrite <- (length_fmap fst), range_fst by done. lia. }
  eapply (assign_sizes K (range g order) 0 (replicate K ∅) subGraphs);
    [| | | | | |exact Hj].
  - lia.
  - apply length_replicate.
  - rewrite range_fst by done. by eapply range_order_NoDup.
  - intros j0 sg0 k Hj0 [v Hv]. apply lookup_replicate in Hj0 as [-> _].
    by rewrite lookup_empty in Hv.
  - intros j0 sg0 Hj0. apply lookup_replicate in Hj0 as [-> HjK].
    rewrite map_size_empty. unfold share. rewrite Nat.Div0.div_0_l, Nat.Div0.mod_0_l.
    by rewrite decide_False by lia.
  - rewrite Nat.Div0.mod_0_l. exact Hrun.
Qed.

(** X4.  The round-robin partition is as even as can be: over a graph of
    [n] vertices visited in a valid order, shard [j] of [K] receives
    [n / K] vertices, and one more when [j < n mod K].  So two shards differ
    by at most one vertex, and with [K ≤ n] no shard (and no job) is empty. *)
Theorem partition_balanced (g : gmap Z proto.GraphNode) (K : nat) (order : list Z)
    (subGraphs : list (gmap Z proto.GraphNode)) :
  1 ≤ K → range_order g order → partition K g order = Some subGraphs →
  (∀ j sg, subGraphs !! j = Some sg →
     size sg = size g / K + (if decide (j < size g mod K) then 1 else 0)) ∧
  (∀ a b sa sb, subGraphs !! a = Some sa → subGraphs !! b = Some sb →
     size sa ≤ size sb + 1) ∧
  (K ≤ size g → ∀ j sg, subGraphs !! j = Some sg → 0 < size sg).
Proof.
  intros HK Hord Hrun.
  pose proof (partition_share g K order subGraphs HK Hord Hrun) as Hsz.
  split; [exact Hsz|]. split.
  - intros a b sa sb Ha Hb. rewrite (Hsz a sa Ha), (Hsz b sb Hb). unfold share.
    repeat case_decide; lia.
  - intros HKg j sg Hj. rewrite (Hsz j sg Hj). unfold share.
    assert (1 ≤ size g / K) by (apply Nat.div_le_lower_bound; lia). lia.
Qed.

(** ** What a dispatch publishes *)

(** A dispatch through a broker that accepts every job. *)
Lemma masterWriteQueue_ok order broker fn n subGraphs :
  partition (numberOfJobs n) (proto.Graph (State n)) order = Some subGraphs →
  (∀ i job, broker i job = None) →
  masterWriteQueue order broker fn n =
    Ok (setJobs (numberOfJobs n) (setWork (Work n ++ (fn <$> subGraphs)) n)).
Proof.
  intros Hpart Hok. unfold masterWriteQueue. rewrite Hpart.
  by rewrite (publish_all fn broker subGraphs 0 (Work n)) by (intros; apply Hok).
Qed.

(** With at least one worker and one vertex, every vertex is in exactly one
    shard of the dispatch, and every shard has a vertex. *)
Lemma dispatch_shards order n :
  0 < size (proto.Graph (State n)) → proto.Others (State n) ≠ [] →
  range_order (proto.Graph (State n)) order →
  ∃ subGraphs,
    partition (numberOfJobs n) (proto.Graph (State n)) order = Some subGraphs ∧
    (∀ i sg, subGraphs !! i = Some sg → ∃ id u, sg !! id = Some u) ∧
    (∀ id u, proto.Graph (State n) !! id = Some u →
       ∃ i sg, subGraphs !! i = Some sg ∧ sg !! id = Some u ∧
         ∀ i' sg', subGraphs !! i' = Some sg' → is_Some (sg' !! id) → i' = i).
Proof.
  intros Hg Ho Hord.
  assert (1 ≤ numberOfJobs n ∧ numberOfJobs n ≤ size (proto.Graph (State n))) as [HK HKg].
  { rewrite numberOfJobs_min.
    destruct (proto.Others (State n)) as [|w ws]; [done|]. rewrite length_cons. lia. }
  destruct (partition_spec _ _ order HK Hord) as (subs & Hpart & Hlen & Hspec).
  exists subs. split; [done|]. split.
  - intros i sg Hi.
    pose proof (partition_share _ _ order subs HK Hord Hpart i sg Hi) as Hsz.
    unfold share in Hsz.
    assert (1 ≤ size (proto.Graph (State n)) / numberOfJobs n)
      by (apply Nat.div_le_lower_bound; lia).
    apply map_choose. intros ->. rewrite map_size_empty in Hsz. lia.
  - intros id u Hu.
    assert (id ∈ order) as Hid by (apply (range_order_elem _ order id Hord); eauto).
    apply list_elem_of_lookup in Hid as [p Hp].
    destruct (lookup_lt_is_Some_2 subs (p mod numberOfJobs n)) as [sg Hsg].
    { rewrite Hlen. apply Nat.mod_upper_bound. lia. }
    exists (p mod numberOfJobs n), sg. split; [done|]. split.
    + apply (Hspec _ _ _ _ Hsg). eauto.
    + intros i' sg' Hi' [v Hv].
      apply (Hspec _ _ _ _ Hi') in Hv as (q & Hq & _ & Hqi).
      assert (q = p) by (eapply NoDup_lookup; eauto using range_order_NoDup).
      by subst.
Qed.

(** X5.  A Wait pass over a non-empty graph with at least one worker and a
    broker that accepts every job starts the broadcaster, publishes
    [K = numberOfJobs n] jobs, stores [K] in [Jobs] and enters phase [Map],
    leaving graph, accumulator, [Responses] and output alone.  Every job is
    a Map job that names at least one vertex, and every vertex appears with
    its in-links in exactly one job. *)
Theorem masterWait_dispatches_map_jobs
    (pagerank : gmap Z proto.GraphNode → float → float → option (gmap Z proto.GraphNode))
    (cfg : float * float * gmap Z proto.GraphNode) (printOrder order : list Z)
    (broker : nat → proto.Job → option error) (n : Node) :
  0 < size (proto.Graph (State n)) → proto.Others (State n) ≠ [] →
  range_order (proto.Graph (State n)) order →
  (∀ i job, broker i job = None) →
  ∃ jobs,
    masterWait pagerank cfg printOrder order broker n =
      Ok (mkNode (proto.mkState (proto.Graph (State n)) (proto.C (State n))
                                (proto.Threshold (State n)) Map (proto.Others (State n)))
                 (numberOfJobs n) (Responses n) (Data n) (Work n ++ jobs) (Stdout n)
                 (S (Broadcasts n))) ∧
    length jobs = numberOfJobs n ∧
    (∀ i job, jobs !! i = Some job →
       proto.JobType job = 0%Z ∧ proto.ReduceData job = ∅ ∧
       ∃ id, is_Some (proto.MapData job !! id)) ∧
    (∀ id u, proto.Graph (State n) !! id = Some u →
       ∃ i job, jobs !! i = Some job ∧
         proto.MapData job !! id = Some (proto.mkMap (proto.InLinks u)) ∧
         ∀ i' job', jobs !! i' = Some job' → is_Some (proto.MapData job' !! id) → i' = i).
Proof.
  intros Hg Ho Hord Hok.
  destruct (dispatch_shards order n Hg Ho Hord) as (subs & Hpart & Hne & Hone).
  exists (mapJob <$> subs). split; [|split; [|split]].
  - unfold masterWait. rewrite bool_decide_eq_true_2 by done.
    rewrite bool_decide_eq_false_2 by (by destruct (proto.Others (State n))).
    by rewrite (masterWriteQueue_ok order broker mapJob (spawnBroadcast n) subs Hpart Hok).
  - rewrite length_fmap.
    destruct (masterWriteQueue_partition order n Ho Hord) as (subs' & Hpart' & Hlen').
    congruence.
  - intros i job Hi. rewrite list_lookup_fmap in Hi.
    destruct (subs !! i) as [sg|] eqn:Hsg; [|done]. injection Hi as <-.
    split; [done|]. split; [done|].
    destruct (Hne i sg Hsg) as (id & u & Hu). exists id. simpl.
    by rewrite lookup_fmap, Hu.
  - intros id u Hu. destruct (Hone id u Hu) as (i & sg & Hsg & Hid & Huniq).
    exists i, (mapJob sg). split; [by rewrite list_lookup_fmap, Hsg|]. split.
    + simpl. by rewrite lookup_fmap, Hid.
    + intros i' job' Hi' Hin. rewrite list_lookup_fmap in Hi'.
      destruct (subs !! i') as [sg'|] eqn:Hsg'; [|done]. injection Hi' as <-.
      apply (Huniq i' sg' Hsg'). simpl in Hin. rewrite lookup_fmap in Hin.
      by apply fmap_is_Some in Hin.
Qed.

(** X6.  A Collect pass with at least one worker, a non-empty graph and a
    broker that accepts every job starts the broadcaster, takes the
    accumulator as snapshot and clears it, publishes [K = numberOfJobs n]
    Reduce jobs, stores [K] in [Jobs] and enters phase [Reduce].  Every
    vertex appears in exactly one job, with its teleport weight and with
    the snapshot's sum for it (zero when the accumulator had none). *)
Theorem masterCollect_dispatches_reduce_jobs (order : list Z)
    (broker : nat → proto.Job → option error) (n : Node) :
  0 < size (proto.Graph (State n)) → proto.Others (State n) ≠ [] →
  range_order (proto.Graph (State n)) order →
  (∀ i job, broker i job = None) →
  ∃ jobs,
    masterCollect order broker n =
      Ok (mkNode (proto.mkState (proto.Graph (State n)) (proto.C (State n))
                                (proto.Threshold (State n)) Reduce (proto.Others (State n)))
                 (numberOfJobs n) (Responses n) utils.NewSafeMap (Work n ++ jobs) (Stdout n)
                 (S (Broadcasts n))) ∧
    length jobs = numberOfJobs n ∧
    (∀ i job, jobs !! i = Some job →
       proto.JobType job = 1%Z ∧ proto.MapData job = ∅) ∧
    (∀ id u, proto.Graph (State n) !! id = Some u →
       ∃ i job, jobs !! i = Some job ∧
         proto.ReduceData job !! id
           = Some (proto.mkReduce (utils.Get id (Data n)) (proto.E u)) ∧
         ∀ i' job', jobs !! i' = Some job' → is_Some (proto.ReduceData job' !! id) → i' = i).
Proof.
  intros Hg Ho Hord Hok.
  destruct (dispatch_shards order n Hg Ho Hord) as (subs & Hpart & Hne & Hone).
  exists (reduceJob (Data n) <$> subs). split; [|split; [|split]].
  - unfold masterCollect.
    rewrite bool_decide_eq_false_2 by (by destruct (proto.Others (State n))).
    cbv zeta. unfold utils.Clone, utils.Reset.
    by rewrite (masterWriteQueue_ok order broker (reduceJob (Data n))
                  (setData ∅ (spawnBroadcast n)) subs Hpart Hok).
  - rewrite length_fmap.
    destruct (masterWriteQueue_partition order n Ho Hord) as (subs' & Hpart' & Hlen').
    congruence.
  - intros i job Hi. rewrite list_lookup_fmap in Hi.
    destruct (subs !! i) as [sg|] eqn:Hsg; [|done]. by injection Hi as <-.
  - intros id u Hu. destruct (Hone id u Hu) as (i & sg & Hsg & Hid & Huniq).
    exists i, (reduceJob (Data n) sg). split; [by rewrite list_lookup_fmap, Hsg|]. split.
    + simpl. by rewrite map_lookup_imap, Hid.
    + intros i' job' Hi' Hin. rewrite list_lookup_fmap in Hi'.
      destruct (subs !! i') as [sg'|] eqn:Hsg'; [|done]. injection Hi' as <-.
      apply (Huniq i' sg' Hsg'). simpl in Hin. rewrite map_lookup_imap in Hin.
      destruct (sg' !! id); [eauto|]. by destruct Hin.
Qed.

(** The publishing loop only appends to the work queue. *)
Lemma publish_prefix fn broker subGraphs : ∀ idx work,
  work `prefix_of` (publish fn broker idx subGraphs work).1.
Proof.
  induction subGraphs as [|sg rest IH]; intros idx work; simpl; [done|].
  destruct (broker idx (fn sg)); [done|].
  etrans; [|apply IH]. by apply prefix_app_r.
Qed.

(** What [masterWriteQueue] leaves behind when it returns an error. *)
Lemma masterWriteQueue_error order broker fn n e n' :
  masterWriteQueue order broker fn n = Err e n' →
  State n' = State n ∧ Data n' = Data n ∧ Jobs n' = Jobs n ∧
  Responses n' = Responses n ∧ Broadcasts n' = Broadcasts n ∧
  Stdout n' = Stdout n ∧ Work n `prefix_of` Work n'.
Proof.
  unfold masterWriteQueue. destruct (partition _ _ _) as [subs|]; [|done].
  pose proof (publish_prefix fn broker subs 0 (Work n)) as Hpre.
  destruct (publish _ _ _ _ _) as [w [e'|]]; [|done].
  intros [= <- <-]. by repeat split.
Qed.

(** X7.  When a Collect pass returns an error, the accumulator has already
    been cleared and the broadcaster started; the phase, the graph and
    [Jobs] are as before, and the jobs published before the failure stay in
    the work queue. *)
Theorem masterCollect_error_clears_accumulator (order : list Z)
    (broker : nat → proto.Job → option error) (n : Node) (e : error) (n' : Node) :
  masterCollect order broker n = Err e n' →
  Data n' = utils.NewSafeMap ∧
  State n' = State n ∧ Jobs n' = Jobs n ∧
  Broadcasts n' = S (Broadcasts n) ∧
  Work n `prefix_of` Work n'.
Proof.
  unfold masterCollect. case_bool_decide; [done|]. cbv zeta.
  destruct (masterWriteQueue _ _ _ _) as [n1|e1 n1| |n1] eqn:Hq; try done.
  intros [= <- <-]. apply masterWriteQueue_error in Hq.
  destruct Hq as (HS & HD & HJ & _ & HB & _ & HW). by repeat split.
Qed.

(** The Reduce dispatch of [pairNode 0.5] through a broker that refuses the
    second job. *)
Lemma masterCollect_error_clears_accumulator_witness :
  ∃ n', masterCollect [2; 1]%Z secondFails (pairNode 0.5) = Err PublishError n' ∧
    Data n' = utils.NewSafeMap ∧
    State n' = State (pairNode 0.5) ∧ Jobs n' = Jobs (pairNode 0.5) ∧
    Broadcasts n' = S (Broadcasts (pairNode 0.5)) ∧
    Work (pairNode 0.5) `prefix_of` Work n'.
Proof.
  eexists. split; [vm_compute; reflexivity|].
  apply (masterCollect_error_clears_accumulator [2; 1]%Z secondFails (pairNode 0.5)
           PublishError).
  vm_compute. reflexivity.
Defined.

(** The Map dispatch of a Wait-phase copy of [pairNode]. *)
Lemma masterWait_dispatches_map_jobs_witness :
  let n := setPhase Wait (pairNode 0.5) in
  ∃ jobs,
    masterWait idlePageRank (0.5%float, 0.5%float, pairGraph) [2; 1]%Z [2; 1]%Z
               reliableBroker n =
      Ok (mkNode (proto.mkState (proto.Graph (State n)) (proto.C (State n))
                                (proto.Threshold (State n)) Map (proto.Others (State n)))
                 (numberOfJobs n) (Responses n) (Data n) (Work n ++ jobs) (Stdout n)
                 (S (Broadcasts n))) ∧
    length jobs = numberOfJobs n ∧
    (∀ i job, jobs !! i = Some job →
       proto.JobType job = 0%Z ∧ proto.ReduceData job = ∅ ∧
       ∃ id, is_Some (proto.MapData job !! id)) ∧
    (∀ id u, proto.Graph (State n) !! id = Some u →
       ∃ i job, jobs !! i = Some job ∧
         proto.MapData job !! id = Some (proto.mkMap (proto.InLinks u)) ∧
         ∀ i' job', jobs !! i' = Some job' → is_Some (proto.MapData job' !! id) → i' = i).
Proof.
  apply (masterWait_dispatches_map_jobs idlePageRank (0.5%float, 0.5%float, pairGraph)
           [2; 1]%Z [2; 1]%Z reliableBroker (setPhase Wait (pairNode 0.5))).
  - vm_compute. lia.
  - discriminate.
  - apply pairGraph_order.
  - reflexivity.
Defined.

(** The Reduce dispatch of [pairNode 0.5]. *)
Lemma masterCollect_dispatches_reduce_jobs_witness :
  let n := pairNode 0.5 in
  ∃ jobs,
    masterCollect [2; 1]%Z reliableBroker n =
      Ok (mkNode (proto.mkState (proto.Graph (State n)) (proto.C (State n))
                                (proto.Threshold (State n)) Reduce (proto.Others (State n)))
                 (numberOfJobs n) (Responses n) utils.NewSafeMap (Work n ++ jobs) (Stdout n)
                 (S (Broadcasts n))) ∧
    length jobs = numberOfJobs n ∧
    (∀ i job, jobs !! i = Some job →
       proto.JobType job = 1%Z ∧ proto.MapData job = ∅) ∧
    (∀ id u, proto.Graph (State n) !! id = Some u →
       ∃ i job, jobs !! i = Some job ∧
         proto.ReduceData job !! id
           = Some (proto.mkReduce (utils.Get id (Data n)) (proto.E u)) ∧
         ∀ i' job', jobs !! i' = Some job' → is_Some (proto.ReduceData job' !! id) → i' = i).
Proof.
  apply (masterCollect_dispatches_reduce_jobs [2; 1]%Z reliableBroker (pairNode 0.5)).
  - vm_compute. lia.
  - discriminate.
  - apply pairGraph_order.
  - reflexivity.
Defined.

(** Three vertices over two shards. *)
Lemma partition_balanced_witness :
  ∃ subGraphs,
    partition 2 (proto.Graph (State tripleNode)) [3; 2; 1]%Z = Some subGraphs ∧
    (∀ j sg, subGraphs !! j = Some sg →
       size sg = size (proto.Graph (State tripleNode)) / 2
                 + (if decide (j < size (proto.Graph (State tripleNode)) mod 2)
                    then 1 else 0)) ∧
    (∀ a b sa sb, subGraphs !! a = Some sa → subGraphs !! b = Some sb →
       size sa ≤ size sb + 1) ∧
    (2 ≤ size (proto.Graph (State tripleNode)) →
       ∀ j sg, subGraphs !! j = Some sg → 0 < size sg).
Proof.
  eexists. split; [vm_compute; reflexivity|].
  apply (partition_balanced (proto.Graph (State tripleNode)) 2 [3; 2; 1]%Z).
  - lia.
  - unfold range_order. vm_compute. reflexivity.
  - vm_compute. reflexivity.
Defined.

(** ** One pass of the driver loop *)

(** What [masterWriteQueue] changes when it returns nil. *)
Lemma masterWriteQueue_grows order broker fn n n' :
  masterWriteQueue order broker fn n = Ok n' →
  State n' = State n ∧ Data n' = Data n ∧ Responses n' = Responses n ∧
  Broadcasts n' = Broadcasts n ∧ Stdout n' = Stdout n ∧ Work n `prefix_of` Work n'.
Proof.
  unfold masterWriteQueue. destruct (partition _ _ _) as [subs|]; [|done].
  pose proof (publish_prefix fn broker subs 0 (Work n)) as Hpre.
  destruct (publish _ _ _ _ _) as [w [e'|]]; [done|].
  intros [= <-]. by repeat split.
Qed.

(** The output of the last loop of [masterConvergence] extends the output
    it was given. *)
Lemma normalizeAndPrint_prefix rankSum order : ∀ g out,
  out `prefix_of` (normalizeAndPrint rankSum order g out).2.
Proof.
  induction order as [|id order IH]; intros g out; simpl; [done|].
  destruct (g !! id); [|apply IH].
  etrans; [|apply IH]. by apply prefix_app_r.
Qed.

(** X8.  The phases follow the cycle Wait, Map, Collect, Reduce,
    Convergence, Wait: a pass of the driver loop that returns nil stays in
    its phase (Wait, Map, Reduce) or moves to the next one, from Collect
    possibly straight to Convergence, and never otherwise; a pass that
    returns an error leaves the phase alone, and a pass that never returns
    leaves the node alone. *)
Theorem masterUpdate_phase_cycle (env : Env) (n : Node) :
  match masterUpdate env n with
  | Ok n' => phaseStep (proto.Phase (State n)) (proto.Phase (State n')) = true
  | Err _ n' => proto.Phase (State n') = proto.Phase (State n)
  | Panic => True
  | Hang n' => n' = n
  end.
Proof.
  unfold masterUpdate. destruct (proto.Phase (State n)) eqn:Hp.
  - unfold masterWait. case_bool_decide.
    + case_bool_decide.
      * by destruct (envPageRank env _ _ _).
      * destruct (masterWriteQueue _ _ _ _) as [n1|e n1| |n1] eqn:Hq; try done.
        -- apply masterWriteQueue_error in Hq as (HS & _). by rewrite HS.
        -- unfold masterWriteQueue in Hq. destruct (partition _ _ _); [|done].
           by destruct (publish _ _ _ _ _) as [w [e'|]].
    + destruct (envConfig env) as [[c t] g]. simpl. by rewrite Hp.
  - case_bool_decide; simpl; by rewrite ?Hp.
  - unfold masterCollect. case_bool_decide; [done|]. cbv zeta.
    destruct (masterWriteQueue _ _ _ _) as [n1|e n1| |n1] eqn:Hq; try done.
    + apply masterWriteQueue_error in Hq as (HS & _). by rewrite HS.
    + unfold masterWriteQueue in Hq. destruct (partition _ _ _); [|done].
      by destruct (publish _ _ _ _ _) as [w [e'|]].
  - case_bool_decide; simpl; by rewrite ?Hp.
  - unfold masterConvergence.
    destruct (commitRanks _ _ _ _) as [[conv g1]|]; [|done].
    destruct (refreshInLinks g1) as [g2|]; [|done].
    destruct (_ <? _)%float; [done|].
    by destruct (normalizeAndPrint _ _ _ _).
Qed.

(** X9.  A pass of the driver loop never withdraws a published job and
    never takes back a printed line: the work queue and the output before
    the pass are prefixes of those after it, whether it returns nil or an
    error.  Jobs are published in the phases Wait and Collect only: a pass
    in Map, Reduce or Convergence leaves the work queue as it is. *)
Theorem masterUpdate_outputs_grow (env : Env) (n : Node) :
  match masterUpdate env n with
  | Ok n' | Err _ n' =>
      Work n `prefix_of` Work n' ∧ Stdout n `prefix_of` Stdout n' ∧
      Broadcasts n ≤ Broadcasts n' ∧
      (proto.Phase (State n) ≠ Wait → proto.Phase (State n) ≠ Collect →
       Work n' = Work n)
  | Panic => True
  | Hang n' => n' = n
  end.
Proof.
  unfold masterUpdate. destruct (proto.Phase (State n)) eqn:Hp.
  - unfold masterWait. case_bool_decide.
    + case_bool_decide.
      * destruct (envPageRank env _ _ _); [|done]. simpl.
        split_and!; [done|by apply prefix_app_r|lia|done].
      * destruct (masterWriteQueue _ _ _ _) as [n1|e n1| |n1] eqn:Hq; try done.
        -- apply masterWriteQueue_grows in Hq as (_ & _ & _ & HB & HO & HW).
           simpl. rewrite HB, HO. simpl. split_and!; [done|done|lia|done].
        -- apply masterWriteQueue_error in Hq as (_ & _ & _ & _ & HB & HO & HW).
           rewrite HB, HO. simpl. split_and!; [done|done|lia|done].
        -- unfold masterWriteQueue in Hq. destruct (partition _ _ _); [|done].
           by destruct (publish _ _ _ _ _) as [w [e'|]].
    + destruct (envConfig env) as [[c t] g]. simpl.
      split_and!; [done|by apply prefix_app_r|lia|done].
  - case_bool_decide; simpl; split_and!; done.
  - unfold masterCollect. case_bool_decide.
    + simpl. split_and!; done.
    + cbv zeta.
      destruct (masterWriteQueue _ _ _ _) as [n1|e n1| |n1] eqn:Hq; try done.
      * apply masterWriteQueue_grows in Hq as (_ & _ & _ & HB & HO & HW).
        simpl. rewrite HB, HO. simpl. split_and!; [done|done|lia|done].
      * apply masterWriteQueue_error in Hq as (_ & _ & _ & _ & HB & HO & HW).
        rewrite HB, HO. simpl. split_and!; [done|done|lia|done].
      * unfold masterWriteQueue in Hq. destruct (partition _ _ _); [|done].
        by destruct (publish _ _ _ _ _) as [w [e'|]].
  - case_bool_decide; simpl; split_and!; done.
  - unfold masterConvergence.
    destruct (commitRanks _ _ _ _) as [[conv g1]|]; [|done].
    destruct (refreshInLinks g1) as [g2|]; [|done].
    destruct (_ <? _)%float.
    + simpl. split_and!; done.
    + pose proof (normalizeAndPrint_prefix
        (fsum ((λ e, proto.Rank e.2) <$> range g2 (envSumOrder env)))
        (envPrintOrder env) g2 (Stdout n)) as Hpre.
      destruct (normalizeAndPrint _ _ _ _) as [g3 out]. simpl in *.
      split_and!; done.
Qed.

(** X10.  Outside the two waiting phases the driver keeps [Responses] at
    zero: if [Responses = 0] holds in every phase but Map and Reduce before
    a pass that returns nil, it holds after it; in particular a pass that
    enters Map or Reduce enters it with [Responses = 0], so the count the
    driver compares with [Jobs] is the count of this phase. *)
Theorem masterUpdate_responses_start_at_zero (env : Env) (n n' : Node) :
  (proto.Phase (State n) ≠ Map → proto.Phase (State n) ≠ Reduce → Responses n = 0) →
  masterUpdate env n = Ok n' →
  (proto.Phase (State n') ≠ Map → proto.Phase (State n') ≠ Reduce → Responses n' = 0) ∧
  (proto.Phase (State n') ≠ proto.Phase (State n) → Responses n' = 0).
Proof.
  intros Hinv. unfold masterUpdate. destruct (proto.Phase (State n)) eqn:Hp.
  - specialize (Hinv ltac:(done) ltac:(done)).
    unfold masterWait. case_bool_decide.
    + case_bool_decide.
      * destruct (envPageRank env _ _ _); [|done]. by intros [= <-].
      * destruct (masterWriteQueue _ _ _ _) as [n1|e n1| |n1] eqn:Hq; try done.
        intros [= <-]. apply masterWriteQueue_grows in Hq as (_ & _ & HR & _).
        simpl. rewrite HR. simpl. done.
    + destruct (envConfig env) as [[c t] g]. by intros [= <-].
  - case_bool_decide; intros [= <-]; simpl; [done|]. rewrite Hp. done.
  - specialize (Hinv ltac:(done) ltac:(done)).
    unfold masterCollect. case_bool_decide.
    + by intros [= <-].
    + cbv zeta.
      destruct (masterWriteQueue _ _ _ _) as [n1|e n1| |n1] eqn:Hq; try done.
      intros [= <-]. apply masterWriteQueue_grows in Hq as (_ & _ & HR & _).
      simpl. rewrite HR. simpl. done.
  - case_bool_decide; intros [= <-]; simpl; [done|]. rewrite Hp. done.
  - specialize (Hinv ltac:(done) ltac:(done)).
    unfold masterConvergence.
    destruct (commitRanks _ _ _ _) as [[conv g1]|]; [|done].
    destruct (refreshInLinks g1) as [g2|]; [|done].
    destruct (_ <? _)%float; [by intros [= <-]|].
    destruct (normalizeAndPrint _ _ _ _). by intros [= <-].
Qed.

(** The Convergence pass on [pairNode 0.5]. *)
Lemma masterUpdate_responses_start_at_zero_witness :
  ∃ n', masterUpdate pairEnv (pairNode 0.5) = Ok n' ∧
    (proto.Phase (State n') ≠ Map → proto.Phase (State n') ≠ Reduce → Responses n' = 0) ∧
    (proto.Phase (State n') ≠ proto.Phase (State (pairNode 0.5)) → Responses n' = 0).
Proof.
  eexists. split; [vm_compute; reflexivity|].
  apply (masterUpdate_responses_start_at_zero pairEnv (pairNode 0.5)).
  - intros _ _. reflexivity.
  - vm_compute. reflexivity.
Defined.

(** X11.  A run that ends forgets its workers.  When the Convergence pass
    finds the distance within the threshold it installs a state without
    workers; so once the next Wait pass has asked for a configuration and
    got a non-empty graph, the Wait pass after it takes the single-node
    path: it publishes no job and starts no broadcast, although the run that
    ended had workers. *)
Theorem finished_run_forgets_workers
    (pagerank : gmap Z proto.GraphNode → float → float → option (gmap Z proto.GraphNode))
    (keys sumOrder printOrder order : list Z)
    (broker : nat → proto.Job → option error)
    (c t : float) (g g' : gmap Z proto.GraphNode) (n : Node) :
  utils.Keys (Data n) keys →
  dom (Data n) ⊆ dom (proto.Graph (State n)) →
  linksClosed (proto.Graph (State n)) →
  (proto.Threshold (State n) <?
     fsum ((λ id, abs (utils.Get id (Data n) - rankAt (proto.Graph (State n)) id))
             <$> keys))%float = false →
  0 < size g → pagerank g c t = Some g' →
  ∃ n1 n2 n3,
    masterConvergence keys sumOrder printOrder n = Ok n1 ∧
    proto.Others (State n1) = [] ∧
    masterWait pagerank (c, t, g) printOrder order broker n1 = Ok n2 ∧
    proto.Graph (State n2) = g ∧ proto.Others (State n2) = [] ∧
    masterWait pagerank (c, t, g) printOrder order broker n2 = Ok n3 ∧
    State n3 = freshState ∧
    Work n3 = Work n ∧ Broadcasts n3 = Broadcasts n ∧
    Stdout n2 `prefix_of` Stdout n3 ∧
    length (Stdout n3) = length (Stdout n2) + length (range g' printOrder).
Proof.
  intros Hkeys Hdom Hclosed Hthr Hg Hrun.
  destruct (masterConvergence_run keys sumOrder printOrder n Hkeys Hdom Hclosed)
    as (g1 & _ & _ & _ & _ & _ & Hconv).
  rewrite Hthr in Hconv. eexists _, _, _. split; [exact Hconv|]. split; [done|].
  split; [reflexivity|]. split; [done|]. split; [done|].
  split.
  - unfold masterWait. simpl. rewrite bool_decide_eq_true_2 by done. by rewrite Hrun.
  - simpl. split_and!; try done.
    + by apply prefix_app_r.
    + unfold printRanks. by rewrite length_app, length_fmap.
Qed.

(** The run of [pairNode 2] ends; the next one starts from [pairGraph]. *)
Lemma finished_run_forgets_workers_witness :
  ∃ n1 n2 n3,
    masterConvergence [2; 1]%Z [2; 1]%Z [2; 1]%Z (pairNode 2) = Ok n1 ∧
    proto.Others (State n1) = [] ∧
    masterWait idlePageRank (0.5%float, 0.5%float, pairGraph) [2; 1]%Z [2; 1]%Z
               reliableBroker n1 = Ok n2 ∧
    proto.Graph (State n2) = pairGraph ∧ proto.Others (State n2) = [] ∧
    masterWait idlePageRank (0.5%float, 0.5%float, pairGraph) [2; 1]%Z [2; 1]%Z
               reliableBroker n2 = Ok n3 ∧
    State n3 = freshState ∧
    Work n3 = Work (pairNode 2) ∧ Broadcasts n3 = Broadcasts (pairNode 2) ∧
    Stdout n2 `prefix_of` Stdout n3 ∧
    length (Stdout n3) = length (Stdout n2) + length (range pairGraph [2; 1]%Z).
Proof.
  apply (finished_run_forgets_workers idlePageRank [2; 1]%Z [2; 1]%Z [2; 1]%Z [2; 1]%Z
           reliableBroker 0.5%float 0.5%float pairGraph pairGraph (pairNode 2)).
  - apply pairNode_keys.
  - apply pairNode_ids.
  - apply pairNode_closed.
  - vm_compute. reflexivity.
  - vm_compute. lia.
  - reflexivity.
Defined.

(** ** The membership broadcaster *)

(** X12.  [masterSendOtherStateUpdate] behaves like the state broadcaster:
    it returns only when every worker in [Others] acknowledged, and then
    leaves [Others] as it was; as soon as one worker is unreachable or
    fails the RPC it never returns, and the node, that worker included,
    stays as it is.  It never shrinks the membership. *)
Theorem masterSendOtherStateUpdate_outcome (peers : string → PeerReply) (n : Node) :
  (Forall (λ w, peers w = Acks) (proto.Others (State n)) ∧
   masterSendOtherStateUpdate peers n = Ok (setOthers (proto.Others (State n)) n)) ∨
  (Exists (λ w, peers w ≠ Acks) (proto.Others (State n)) ∧
   masterSendOtherStateUpdate peers n = Hang n).
Proof.
  unfold masterSendOtherStateUpdate.
  destruct (contactWorkers peers 0 (proto.Others (State n))) as [[]|] eqn:Hc.
  - left. split; [by apply (contactWorkers_Some peers _ 0)|].
    by rewrite removeCrashed_none.
  - right. split; [|done]. apply not_Forall_Exists; [solve_decision|].
    intros HF. apply (contactWorkers_Some peers _ 0) in HF. congruence.
Qed.

(** ** The consumer makes progress *)

(** The loop over the pairs of a message, run to its end. *)
Lemma consumer_folds_pairs d rest : ∀ folded data r inbox handled,
  consumer_run (length rest) (mkConsumer data r (Folding d folded rest) inbox handled) =
    mkConsumer (foldInto rest data) r (Folding d (folded ++ rest) []) inbox handled.
Proof.
  induction rest as [|[id v] rest IH]; intros folded data r inbox handled; simpl.
  - by rewrite app_nil_r.
  - unfold consumer_step at 1. simpl. rewrite IH. by rewrite <- app_assoc.
Qed.

Lemma consumer_run_add k1 k2 c :
  consumer_run (k1 + k2) c = consumer_run k2 (consumer_run k1 c).
Proof. revert c. induction k1 as [|k1 IH]; intros c; simpl; [done|]. apply IH. Qed.

Lemma consumer_run_S k c : consumer_run (S k) c = consumer_run k (consumer_step c).
Proof. reflexivity. Qed.

(** One message, from the moment it is taken to the moment the consumer
    waits again. *)
Lemma consumer_handles_message d data r inbox handled :
  consumer_run (actions d) (mkConsumer data r AwaitMsg (d :: inbox) handled) =
    mkConsumer (foldInto (values d) data) (r + (if counted d then 1 else 0)) AwaitMsg
               inbox (handled ++ [d]).
Proof.
  unfold actions, values, counted. destruct d as [[l|] ack]; cbn [Body AckOk default].
  - set (d := mkDelivery (Some l) ack).
    replace (2 + length l + (if ack then 1 else 0))
      with (S (length l + S (if ack then 1 else 0))) by lia.
    rewrite consumer_run_S.
    change (consumer_step (mkConsumer data r AwaitMsg (d :: inbox) handled))
      with (mkConsumer data r (Folding d [] l) inbox handled).
    rewrite consumer_run_add, consumer_folds_pairs, consumer_run_S.
    destruct ack.
    + change (consumer_step (mkConsumer (foldInto l data) r (Folding d ([] ++ l) [])
                                        inbox handled))
        with (mkConsumer (foldInto l data) r (Counting d) inbox handled).
      reflexivity.
    + change (consumer_step (mkConsumer (foldInto l data) r (Folding d ([] ++ l) [])
                                        inbox handled))
        with (mkConsumer (foldInto l data) r AwaitMsg inbox (handled ++ [d])).
      simpl. by rewrite Nat.add_0_r.
  - simpl. unfold consumer_step. simpl. by rewrite Nat.add_0_r.
Qed.

(** X13.  The consumer drains the result queue: after the actions that the
    messages of the queue take, it waits for the next message with the
    queue empty; the accumulator holds the pairs of every decodable
    message, acknowledged or not, and nothing of the others; [Responses]
    has grown by the number of messages that were decoded and
    acknowledged.  From then on it stays as it is. *)
Theorem consumer_drains_queue (inbox : list Delivery) (data : gmap Z float) (r : nat)
    (handled : list Delivery) (k : nat) :
  consumer_run (sum_list (actions <$> inbox) + k)
               (mkConsumer data r AwaitMsg inbox handled) =
    mkConsumer (foldInto (concat (values <$> inbox)) data)
               (r + length (filter (λ d, counted d = true) inbox))
               AwaitMsg [] (handled ++ inbox).
Proof.
  rewrite consumer_run_add.
  revert data r handled. induction inbox as [|d inbox IH]; intros data r handled.
  - simpl. rewrite app_nil_r, Nat.add_0_r.
    induction k as [|k IHk]; [done|]. simpl. unfold consumer_step at 1. simpl. apply IHk.
  - simpl. rewrite consumer_run_add, consumer_handles_message, IH.
    rewrite foldInto_app. f_equal.
    + destruct (counted d) eqn:Hd.
      * rewrite filter_cons_True by done. simpl. lia.
      * rewrite filter_cons_False by (by rewrite Hd). lia.
    + by rewrite <- app_assoc.
Qed.

(** ** The earlier revision of [masterCollect], beyond the number of jobs *)

(** The publishing loop of the earlier revision: either every job went out,
    or the queue was emptied. *)
Lemma legacy_publish_outcome data broker subGraphs : ∀ idx work,
  match Legacy.publish data broker idx subGraphs work with
  | (w, None) => length w = length work + length subGraphs
  | (w, Some _) => w = []
  end.
Proof.
  induction subGraphs as [|sg rest IH]; intros idx work; simpl; [lia|].
  destruct (broker idx _); [done|].
  specialize (IH (S idx) (work ++ [Legacy.reduceJob data sg])).
  destruct (Legacy.publish _ _ _ _ _) as [w [e|]]; [done|].
  rewrite IH, length_app. simpl. lia.
Qed.

(** X14.  The earlier [masterCollect], with at least one worker, needs two
    vertices: on a graph with none or one it panics (a negative length for
    [make], or an index out of range in the partition loop).  On a graph
    with two or more it does not panic: it either publishes
    [min(|Others|, |Graph| - 1)] Reduce jobs, stores that number in [Jobs]
    and enters phase Reduce, or returns the error of a job with the whole
    work queue emptied and the state untouched. *)
Theorem legacy_masterCollect_needs_two_vertices (order : list Z)
    (broker : nat → proto.Job → option error) (n : Legacy.Node) :
  Legacy.Others (Legacy.State n) ≠ [] →
  range_order (Legacy.Graph (Legacy.State n)) order →
  (size (Legacy.Graph (Legacy.State n)) ≤ 1 →
     Legacy.masterCollect order broker n = Panic) ∧
  (2 ≤ size (Legacy.Graph (Legacy.State n)) →
     match Legacy.masterCollect order broker n with
     | Ok n' =>
         Legacy.Jobs (Legacy.State n') =
           Z.of_nat (length (Legacy.Others (Legacy.State n))
                     `min` (size (Legacy.Graph (Legacy.State n)) - 1)) ∧
         Legacy.Phase (Legacy.State n') = Reduce ∧
         Legacy.Graph (Legacy.State n') = Legacy.Graph (Legacy.State n) ∧
         length (Legacy.Work n') =
           length (Legacy.Work n)
           + length (Legacy.Others (Legacy.State n))
             `min` (size (Legacy.Graph (Legacy.State n)) - 1)
     | Err _ n' => Legacy.Work n' = [] ∧ Legacy.State n' = Legacy.State n
     | Panic => False
     | Hang _ => False
     end).
Proof.
  intros Ho Hord. destruct n as [st work]. simpl in *.
  assert (0 < length (Legacy.Others st)) as Hlen
    by (destruct (Legacy.Others st); simpl; [done|lia]).
  pose proof (range_order_length _ _ Hord) as Hsize.
  unfold Legacy.masterCollect. cbn [Legacy.State Legacy.Work].
  rewrite (bool_decide_eq_false_2 (length (Legacy.Others st) = 0)) by lia.
  split.
  - intros Hsmall.
    destruct (decide (size (Legacy.Graph st) = 0)) as [Hz|Hz].
    + assert (Legacy.numberOfJobs st = (-1)%Z) as ->.
      { unfold Legacy.numberOfJobs. rewrite Hz.
        rewrite bool_decide_eq_true_2 by lia. done. }
      done.
    + assert (Legacy.numberOfJobs st = 0%Z) as ->.
      { unfold Legacy.numberOfJobs.
        rewrite bool_decide_eq_true_2 by lia. lia. }
      simpl. unfold partition. destruct order as [|k order]; [simpl in Hsize; lia|].
      destruct (proj1 (range_order_elem _ _ k Hord)) as [v Hv]; [left|].
      by rewrite (range_cons_Some _ _ v).
  - intros Hbig.
    set (K := length (Legacy.Others st) `min` (size (Legacy.Graph st) - 1)).
    assert (Legacy.numberOfJobs st = Z.of_nat K) as ->.
    { unfold Legacy.numberOfJobs, K. case_bool_decide; lia. }
    rewrite bool_decide_eq_false_2 by lia. rewrite Nat2Z.id.
    destruct (partition_spec K (Legacy.Graph st) order) as (subs & Hpart & HlenS & _);
      [unfold K; lia|done|].
    rewrite Hpart.
    pose proof (legacy_publish_outcome (Legacy.Data st) broker subs 0 work) as Hpub.
    destruct (Legacy.publish _ _ _ _ _) as [w [e|]]; simpl.
    + by subst.
    + rewrite Hpub, HlenS. done.
Qed.

(** Two workers, two vertices. *)
Lemma legacy_masterCollect_needs_two_vertices_witness :
  let n := legacyNode ["w1"; "w2"] [1; 2]%Z in
  (size (Legacy.Graph (Legacy.State n)) ≤ 1 →
     Legacy.masterCollect [2; 1]%Z reliableBroker n = Panic) ∧
  (2 ≤ size (Legacy.Graph (Legacy.State n)) →
     match Legacy.masterCollect [2; 1]%Z reliableBroker n with
     | Ok n' =>
         Legacy.Jobs (Legacy.State n') =
           Z.of_nat (length (Legacy.Others (Legacy.State n))
                     `min` (size (Legacy.Graph (Legacy.State n)) - 1)) ∧
         Legacy.Phase (Legacy.State n') = Reduce ∧
         Legacy.Graph (Legacy.State n') = Legacy.Graph (Legacy.State n) ∧
         length (Legacy.Work n') =
           length (Legacy.Work n)
           + length (Legacy.Others (Legacy.State n))
             `min` (size (Legacy.Graph (Legacy.State n)) - 1)
     | Err _ n' => Legacy.Work n' = [] ∧ Legacy.State n' = Legacy.State n
     | Panic => False
     | Hang _ => False
     end).
Proof.
  apply (legacy_masterCollect_needs_two_vertices [2; 1]%Z reliableBroker
           (legacyNode ["w1"; "w2"] [1; 2]%Z)).
  - discriminate.
  - unfold range_order. vm_compute. reflexivity.
Defined.

(** ** The layered server *)

Section layer_facts.
Context {V : Type}.
Implicit Types (n : Layer1Node V) (msg : lib.AnnounceMessage).

(** X15.  A series of announcements appends the announced connections, in
    the order of arrival, to [Layer1s] (layer number 1) and to [Layer2s]
    (layer number 2), and touches nothing else; a message with any other
    layer number is refused and changes nothing.  [NodeServerImpl.Announce]
    makes the same change to a layer-1 node as [Layer1NodeServerImpl.Announce],
    and fails exactly when it does. *)
Theorem announcements_accumulate (msgs : list lib.AnnounceMessage) n :
  announceAll msgs n =
    mkLayer1Node (Layer V n) (Address V n) (Port V n)
      (Layer1s V n ++ (lib.Connection <$> filter (λ m, lib.LayerNumber m = 1%Z) msgs))
      (Layer2s V n ++ (lib.Connection <$> filter (λ m, lib.LayerNumber m = 2%Z) msgs))
      (NumberOfNodes V n) (NodePhase V n) (NodeGraph V n) (SubGraphs V n) (MapData V n) ∧
  (∀ msg, lib.LayerNumber msg ≠ 1%Z → lib.LayerNumber msg ≠ 2%Z →
     Layer1Announce V msg n = (n, Some "invalid layer number")) ∧
  (∀ msg, (Announce V msg (IsLayer1 n)).1 = IsLayer1 (Layer1Announce V msg n).1 ∧
          (is_Some (Announce V msg (IsLayer1 n)).2 ↔ is_Some (Layer1Announce V msg n).2)).
Proof.
  split; [|split].
  - revert n. induction msgs as [|msg msgs IH]; intros n.
    + destruct n. simpl. by rewrite !app_nil_r.
    + unfold announceAll in *. simpl. rewrite IH. unfold Layer1Announce.
      destruct (decide (lib.LayerNumber msg = 1%Z)) as [H1|H1].
      * rewrite bool_decide_eq_true_2 by done. simpl.
        rewrite filter_cons_True by done.
        rewrite (filter_cons_False (λ m, lib.LayerNumber m = 2%Z)) by lia.
        simpl. by rewrite <- app_assoc.
      * rewrite bool_decide_eq_false_2 by done.
        rewrite filter_cons_False by done.
        destruct (decide (lib.LayerNumber msg = 2%Z)) as [H2|H2].
        -- rewrite bool_decide_eq_true_2 by done. simpl.
           rewrite filter_cons_True by done. simpl. by rewrite <- app_assoc.
        -- rewrite bool_decide_eq_false_2 by done. simpl.
           by rewrite filter_cons_False by done.
  - intros msg H1 H2. unfold Layer1Announce. by rewrite !bool_decide_eq_false_2 by done.
  - intros msg. unfold Announce, Layer1Announce.
    repeat case_bool_decide; simpl; split; try done; split; intros [? ?]; done || eauto.
Qed.

(** The search for the least count, started at index [i] with the least
    count seen so far: it keeps what it has when no later count is below
    it, and otherwise finds the first position of the least later count. *)
Lemma leastLoaded_spec (counts : list Z) : ∀ i least assigned,
  (leastLoaded i counts least assigned = assigned ∧
   ∀ j c, counts !! j = Some c → (least ≤ c)%Z) ∨
  (∃ k c, leastLoaded i counts least assigned = i + k ∧ counts !! k = Some c ∧
     (c < least)%Z ∧
     (∀ j c', counts !! j = Some c' → (c ≤ c')%Z) ∧
     (∀ j c', j < k → counts !! j = Some c' → (c < c')%Z)).
Proof.
  induction counts as [|v rest IH]; intros i least assigned; simpl.
  - left. split; [done|]. intros j c Hj. by rewrite lookup_nil in Hj.
  - case_bool_decide as Hv.
    + right. destruct (IH (S i) v i) as [[Heq Hall]|(k & c & Heq & Hk & Hc & Hmin & Hfirst)].
      * exists 0, v. rewrite Heq. split; [lia|]. split; [done|]. split; [done|]. split.
        -- intros [|j] c' Hj; simpl in Hj; [injection Hj as <-; lia|eauto].
        -- intros j c' Hj. lia.
      * exists (S k), c. rewrite Heq. split; [lia|]. split; [done|]. split; [lia|]. split.
        -- intros [|j] c' Hj; simpl in Hj; [injection Hj as <-; lia|eauto].
        -- intros [|j] c' Hj Hc'; simpl in Hc'; [injection Hc' as <-; lia|].
           apply (Hfirst j); [lia|done].
    + destruct (IH (S i) least assigned)
        as [[Heq Hall]|(k & c & Heq & Hk & Hc & Hmin & Hfirst)].
      * left. split; [done|].
        intros [|j] c Hj; simpl in Hj; [injection Hj as <-; lia|eauto].
      * right. exists (S k), c. rewrite Heq. split; [lia|]. split; [done|].
        split; [done|]. split.
        -- intros [|j] c' Hj; simpl in Hj; [injection Hj as <-; lia|eauto].
        -- intros [|j] c' Hj Hc'; simpl in Hc'; [injection Hc' as <-; lia|].
           apply (Hfirst j); [lia|done].
Qed.

(** X16.  Once the first node knows four layer-1 nodes, [GetInfo] places
    the caller in layer 2 under the least loaded of them: when
    [NumberOfNodes] is not empty, no longer than [Layer1s] and holds
    [int32] values, the caller is assigned the layer-1 node at the first
    position [a] whose count is least, and only that count is incremented
    (as an [int32]); the list of layer-1 nodes does not change. *)
Theorem GetInfo_assigns_least_loaded (caller : lib.ConnectionInfo) (first : Layer1Node V) :
  Layer V first = 0%Z →
  4 ≤ length (Layer1s V first) →
  NumberOfNodes V first ≠ [] →
  length (NumberOfNodes V first) ≤ length (Layer1s V first) →
  Forall int32 (NumberOfNodes V first) →
  ∃ a count conn,
    NumberOfNodes V first !! a = Some count ∧
    Layer1s V first !! a = Some conn ∧
    (∀ j c, NumberOfNodes V first !! j = Some c → (count ≤ c)%Z) ∧
    (∀ j c, j < a → NumberOfNodes V first !! j = Some c → (count < c)%Z) ∧
    GetInfo V caller (IsLayer1 first) =
      Served (IsLayer1 (setNumberOfNodes V
                          (<[a := wrap32 (count + 1)]> (NumberOfNodes V first)) first))
             (lib.mkInfo 2 [] (Some conn)) None.
Proof.
  intros HL H4 Hne Hlen Hint.
  set (counts := NumberOfNodes V first) in *.
  assert (∃ a count, leastLoaded 0 counts (2 ^ 31 - 1)%Z 0 = a ∧
            counts !! a = Some count ∧
            (∀ j c, counts !! j = Some c → (count ≤ c)%Z) ∧
            (∀ j c, j < a → counts !! j = Some c → (count < c)%Z))
    as (a & count & Ha & Hcount & Hmin & Hfirst).
  { destruct (leastLoaded_spec counts 0 (2 ^ 31 - 1)%Z 0)
      as [[Heq Hall]|(k & c & Heq & Hk & Hc & Hmin & Hfirst)].
    - destruct counts as [|v rest] eqn:Hcounts; [done|].
      exists 0, v. split; [done|]. split; [done|]. split.
      + intros j c Hj. specialize (Hall j c Hj).
        apply Forall_cons in Hint as [Hv _]. unfold int32 in Hv. lia.
      + intros j c Hj. lia.
    - exists k, c. rewrite Heq. split; [lia|]. eauto. }
  destruct (lookup_lt_is_Some_2 (Layer1s V first) a) as [conn Hconn].
  { apply lookup_lt_Some in Hcount. lia. }
  exists a, count, conn. split; [done|]. split; [done|]. split; [done|]. split; [done|].
  unfold GetInfo. rewrite bool_decide_eq_false_2 by (intros Hx; by apply Hx).
  rewrite bool_decide_eq_false_2 by lia.
  fold counts. rewrite Ha, Hconn, Hcount. done.
Qed.

(** X17.  The first callers of [GetInfo] become the layer-1 nodes: as long
    as fewer than four are known, each caller is told it is in layer 1, is
    told the layer-1 nodes known before its call, in order, and is added at
    the end.  So a first node that knows [known] serves callers up to a
    total of four without ever panicking. *)
Theorem GetInfo_fills_layer1 (callers : list lib.ConnectionInfo) (first : Layer1Node V) :
  Layer V first = 0%Z →
  length (Layer1s V first) + length callers ≤ 4 →
  joinAll callers (IsLayer1 first) =
    Some (IsLayer1 (setLayer1s V (Layer1s V first ++ callers) first),
          imap (λ k _, lib.mkInfo 1 (Layer1s V first ++ take k callers) None) callers).
Proof.
  revert first. induction callers as [|c callers IH]; intros first HL Hlen.
  - simpl. rewrite app_nil_r. by destruct first.
  - simpl in Hlen. cbn [joinAll]. unfold GetInfo.
    rewrite bool_decide_eq_false_2 by (intros Hx; by apply Hx).
    rewrite bool_decide_eq_true_2 by lia.
    rewrite IH; [|done|simpl; rewrite length_app; simpl; lia].
    simpl. rewrite app_nil_r, <- app_assoc. simpl. do 3 f_equal.
    apply imap_ext. intros k x Hk. simpl. by rewrite <- app_assoc.
Qed.

End layer_facts.

Section handover_facts.
Context {V : Type}.
Variable nodeMap : V → list (Z * float).
Implicit Types (n : Layer1Node V).

Lemma Init_all_succeed dial announce addr port (peers : list lib.ConnectionInfo) :
  ∀ n sent, Address V n = addr → Port V n = port →
  Forall (λ v, dial v = None ∧
               announce v (lib.mkAnnounceMessage 1 (lib.mkConnectionInfo addr port)) = None)
         peers →
  Init V dial announce peers n sent =
    (setLayer1s V (Layer1s V n ++ peers) n,
     sent ++ ((λ v, (v, lib.mkAnnounceMessage 1 (lib.mkConnectionInfo addr port))) <$> peers),
     None).
Proof.
  induction peers as [|v peers IH]; intros n sent Haddr Hport Hall.
  - simpl. rewrite !app_nil_r. by destruct n.
  - apply Forall_cons in Hall as [[Hd Ha] Hall]. simpl. rewrite Hd, Haddr, Hport, Ha.
    rewrite IH by done. simpl. by rewrite <- !app_assoc.
Qed.

Lemma Init_first_failure dial announce addr port (peers : list lib.ConnectionInfo) :
  ∀ n sent i v err, Address V n = addr → Port V n = port →
  peers !! i = Some v →
  dial v = Some err ∨
    (dial v = None ∧
     announce v (lib.mkAnnounceMessage 1 (lib.mkConnectionInfo addr port)) = Some err) →
  Forall (λ v, dial v = None ∧
               announce v (lib.mkAnnounceMessage 1 (lib.mkConnectionInfo addr port)) = None)
         (take i peers) →
  Init V dial announce peers n sent =
    (setLayer1s V (Layer1s V n ++ take (S i) peers) n,
     sent ++ ((λ v, (v, lib.mkAnnounceMessage 1 (lib.mkConnectionInfo addr port)))
                <$> take i peers),
     Some err).
Proof.
  induction peers as [|v0 peers IH]; intros n sent i v err Haddr Hport Hi Hfail Hbefore;
    [by rewrite lookup_nil in Hi|].
  destruct i as [|i]; simpl in Hi.
  - injection Hi as ->. simpl. rewrite app_nil_r.
    destruct Hfail as [Hd|[Hd Ha]]; rewrite Hd; [done|]. by rewrite Haddr, Hport, Ha.
  - simpl in Hbefore. apply Forall_cons in Hbefore as [[Hd Ha] Hbefore].
    simpl. rewrite Hd, Haddr, Hport, Ha.
    rewrite (IH _ _ i v err) by done. simpl. by rewrite <- !app_assoc.
Qed.

(** X18.  [Init] records a layer-1 node before it calls it.  When every
    client call and every announcement succeeds, all the nodes of [peers]
    are appended to [Layer1s] and each has been sent this node's own
    address with layer number 1.  When the [i]-th is the first for which
    the client call or the announcement fails, [Init] returns that error
    at once: the nodes before it were announced to, the failing one is
    already in [Layer1s], and the nodes after it are neither recorded nor
    called. *)
Theorem Init_records_then_calls (dial : lib.ConnectionInfo → option string)
    (announce : lib.ConnectionInfo → lib.AnnounceMessage → option string)
    (peers : list lib.ConnectionInfo) n
    (sent : list (lib.ConnectionInfo * lib.AnnounceMessage)) :
  let msg := lib.mkAnnounceMessage 1 (lib.mkConnectionInfo (Address V n) (Port V n)) in
  let ok := λ v, dial v = None ∧ announce v msg = None in
  (Forall ok peers →
     Init V dial announce peers n sent =
       (setLayer1s V (Layer1s V n ++ peers) n, sent ++ ((λ v, (v, msg)) <$> peers), None)) ∧
  (∀ i v err, peers !! i = Some v →
     dial v = Some err ∨ (dial v = None ∧ announce v msg = Some err) →
     Forall ok (take i peers) →
     Init V dial announce peers n sent =
       (setLayer1s V (Layer1s V n ++ take (S i) peers) n,
        sent ++ ((λ v, (v, msg)) <$> take i peers), Some err)).
Proof.
  intros msg ok. split.
  - intros Hall. by apply Init_all_succeed.
  - intros i v err Hi Hfail Hbefore. by eapply Init_first_failure.
Qed.

(** X19.  [ReceiveGraph] cannot hand a graph over to layer-2 nodes: with at
    least one layer-2 node it panics on the first vertex of a non-empty
    graph, since the subgraphs it just made are nil maps (and the quotient
    it divides by may be zero).  Only an empty graph is accepted: the node
    then enters phase Map with that graph, one nil subgraph per layer-2
    node and an empty [MapData]. *)
Theorem ReceiveGraph_cannot_hand_over (order : list Z) (graph : gmap Z V) n :
  Layer2s V n ≠ [] → range_order graph order →
  ReceiveGraph V nodeMap order graph n =
    if decide (graph = ∅)
    then Served (mkLayer1Node (Layer V n) (Address V n) (Port V n) (Layer1s V n)
                              (Layer2s V n) (NumberOfNodes V n) Map ∅
                              (replicate (length (Layer2s V n)) None) ∅)
                tt None
    else Crashed.
Proof.
  intros Hl2 Hord. unfold ReceiveGraph.
  assert (0 < length (Layer2s V n)) as Hlen by (destruct (Layer2s V n); simpl; [done|lia]).
  rewrite bool_decide_eq_false_2 by lia.
  pose proof (range_order_length graph order Hord) as Hsize.
  case_decide as Hg.
  - subst graph. rewrite map_size_empty in Hsize. destruct order; [|done]. done.
  - destruct order as [|k order].
    { simpl in Hsize. symmetry in Hsize. by apply map_size_empty_inv in Hsize. }
    destruct (proj1 (range_order_elem _ _ k Hord)) as [v Hv]; [left|].
    rewrite (range_cons_Some _ _ v) by done. simpl.
    case_bool_decide as Hper; [done|].
    rewrite Nat.Div0.div_0_l.
    destruct (length (Layer2s V n)) as [|m]; [lia|]. done.
Qed.

End handover_facts.

(** The ids that the local Map touches. *)
Lemma mapLocally_dom {V : Type} (nodeMap : V → list (Z * float))
    (entries : list (Z * V)) : ∀ mapData,
  dom (mapLocally V nodeMap entries mapData) =
    dom mapData ∪ list_to_set (entries ≫= λ e, (nodeMap e.2).*1).
Proof.
  assert (∀ (cs : list (Z * float)) (acc : gmap Z float),
            dom (foldl (λ acc' c, <[c.1 := (default 0%float (acc' !! c.1) + c.2)%float]> acc')
                       acc cs) = dom acc ∪ list_to_set cs.*1) as Hinner.
  { induction cs as [|c cs IH]; intros acc; simpl; [by rewrite (right_id_L ∅ (∪))|].
    rewrite IH, dom_insert_L.
    rewrite (comm_L (∪) {[c.1]} (dom acc)). by rewrite <- (assoc_L (∪)). }
  induction entries as [|e entries IH]; intros mapData; simpl; [by rewrite (right_id_L ∅ (∪))|].
  unfold mapLocally in *. simpl. rewrite IH, Hinner.
  rewrite list_to_set_app_L. by rewrite (assoc_L (∪)).
Qed.

(** X20.  Without layer-2 nodes [ReceiveGraph] maps the graph itself: it
    never panics, enters phase Collect, keeps its own graph and subgraphs,
    and replaces [MapData] by the contributions of the vertices it was
    sent, accumulated from an empty map: what [MapData] held before is
    gone, and its keys are exactly the ids some vertex contributes to. *)
Theorem ReceiveGraph_maps_locally {V : Type} (nodeMap : V → list (Z * float))
    (order : list Z) (graph : gmap Z V) (n : Layer1Node V) :
  Layer2s V n = [] →
  ∃ mapData,
    ReceiveGraph V nodeMap order graph n =
      Served (mkLayer1Node (Layer V n) (Address V n) (Port V n) (Layer1s V n)
                           (Layer2s V n) (NumberOfNodes V n) Collect (NodeGraph V n)
                           (SubGraphs V n) mapData)
             tt None ∧
    mapData = mapLocally V nodeMap (range graph order) ∅ ∧
    dom mapData = list_to_set (range graph order ≫= λ e, (nodeMap e.2).*1).
Proof.
  intros Hl2. eexists. split; [|split; [reflexivity|]].
  - unfold ReceiveGraph. by rewrite Hl2.
  - rewrite mapLocally_dom. by rewrite dom_empty_L, (left_id_L ∅ (∪)).
Qed.


(** Five layer-2 calls' worth of counts: the node with count 1 at position
    1 is the first least loaded. *)
Lemma GetInfo_assigns_least_loaded_witness :
  ∃ a count conn,
    NumberOfNodes float (firstNode endpoints [] [3; 1; 2; 1]%Z) !! a = Some count ∧
    Layer1s float (firstNode endpoints [] [3; 1; 2; 1]%Z) !! a = Some conn ∧
    (∀ j c, NumberOfNodes float (firstNode endpoints [] [3; 1; 2; 1]%Z) !! j = Some c →
       (count ≤ c)%Z) ∧
    (∀ j c, j < a →
       NumberOfNodes float (firstNode endpoints [] [3; 1; 2; 1]%Z) !! j = Some c →
       (count < c)%Z) ∧
    GetInfo float (lib.mkConnectionInfo "e" 5)
            (IsLayer1 (firstNode endpoints [] [3; 1; 2; 1]%Z)) =
      Served (IsLayer1 (setNumberOfNodes float
                          (<[a := wrap32 (count + 1)]>
                             (NumberOfNodes float (firstNode endpoints [] [3; 1; 2; 1]%Z)))
                          (firstNode endpoints [] [3; 1; 2; 1]%Z)))
             (lib.mkInfo 2 [] (Some conn)) None.
Proof.
  apply (GetInfo_assigns_least_loaded (lib.mkConnectionInfo "e" 5)
           (firstNode endpoints [] [3; 1; 2; 1]%Z)).
  - reflexivity.
  - simpl. lia.
  - discriminate.
  - simpl. lia.
  - repeat constructor; unfold int32; lia.
Defined.

(** Four callers of an empty first node. *)
Lemma GetInfo_fills_layer1_witness :
  joinAll endpoints (IsLayer1 (firstNode [] [] [])) =
    Some (IsLayer1 (setLayer1s float (Layer1s float (firstNode [] [] []) ++ endpoints)
                               (firstNode [] [] [])),
          imap (λ k _, lib.mkInfo 1 (Layer1s float (firstNode [] [] []) ++ take k endpoints)
                                  None) endpoints).
Proof.
  apply (GetInfo_fills_layer1 endpoints (firstNode [] [] [])).
  - reflexivity.
  - simpl. lia.
Defined.

(** One vertex sent to a node with four layer-2 nodes. *)
Lemma ReceiveGraph_cannot_hand_over_witness :
  ReceiveGraph float toOne [1]%Z {[1%Z := 0.5%float]} (firstNode [] endpoints []) =
    if decide (({[1%Z := 0.5%float]} : gmap Z float) = ∅)
    then Served (mkLayer1Node 0 "first" 9 [] endpoints [] Map ∅
                              (replicate (length endpoints) None) ∅)
                tt None
    else Crashed.
Proof.
  apply (ReceiveGraph_cannot_hand_over toOne [1]%Z {[1%Z := 0.5%float]}
           (firstNode [] endpoints [])).
  - discriminate.
  - unfold range_order. vm_compute. reflexivity.
Defined.

(** Two vertices sent to a node without layer-2 nodes. *)
Lemma ReceiveGraph_maps_locally_witness :
  ∃ mapData,
    ReceiveGraph float toOne [2; 1]%Z {[1%Z := 0.5%float; 2%Z := 0.25%float]}
                 (firstNode [] [] []) =
      Served (mkLayer1Node 0 "first" 9 [] [] [] Collect ∅ [] mapData) tt None ∧
    mapData = mapLocally float toOne
                (range ({[1%Z := 0.5%float; 2%Z := 0.25%float]} : gmap Z float) [2; 1]%Z) ∅ ∧
    dom mapData =
      list_to_set (range ({[1%Z := 0.5%float; 2%Z := 0.25%float]} : gmap Z float) [2; 1]%Z
                   ≫= λ e, (toOne e.2).*1).
Proof.
  apply (ReceiveGraph_maps_locally toOne [2; 1]%Z
           {[1%Z := 0.5%float; 2%Z := 0.25%float]} (firstNode [] [] [])).
  reflexivity.
Defined.

(** ** The earlier revision: re-dispatch after the convergence check *)

(** The publishing loop of [WriteGraphToQueue] with a broker that accepts
    every job appends one Map job per subgraph, in order. *)
Lemma legacyrun_publish_ok broker subGraphs :
  (∀ idx job, broker idx job = None) →
  ∀ idx work, LegacyRun.publish broker idx subGraphs work
              = (work ++ (LegacyRun.mapJob <$> subGraphs), None).
Proof.
  intros Hb. induction subGraphs as [|sg rest IH]; intros idx work; simpl.
  - by rewrite app_nil_r.
  - rewrite Hb, IH, <- app_assoc. done.
Qed.

(** It never panics: every job went out, or the queue was emptied. *)
Lemma legacyrun_publish_outcome broker subGraphs : ∀ idx work,
  match LegacyRun.publish broker idx subGraphs work with
  | (w, None) => length w = length work + length subGraphs
  | (w, Some _) => w = []
  end.
Proof.
  induction subGraphs as [|sg rest IH]; intros idx work; simpl; [lia|].
  destruct (broker idx _); [done|].
  specialize (IH (S idx) (work ++ [LegacyRun.mapJob sg])).
  destruct (LegacyRun.publish _ _ _ _) as [w [e|]]; [done|].
  rewrite IH, length_app. simpl. lia.
Qed.

(** The number of subgraphs of the earlier revision, by cases. *)
Lemma legacy_numberOfJobs_cases (st : Legacy.ProtoState) :
  (Legacy.Others st ≠ [] → 2 ≤ size (Legacy.Graph st) →
     Legacy.numberOfJobs st
     = Z.of_nat (length (Legacy.Others st) `min` (size (Legacy.Graph st) - 1))
     ∧ 1 ≤ length (Legacy.Others st) `min` (size (Legacy.Graph st) - 1)) ∧
  (Legacy.Others st = [] ∨ size (Legacy.Graph st) ≤ 1 →
     Legacy.numberOfJobs st = (-1)%Z ∨
     (Legacy.numberOfJobs st = 0%Z ∧ 1 ≤ size (Legacy.Graph st))).
Proof.
  unfold Legacy.numberOfJobs. split.
  - intros Ho Hsz. destruct (Legacy.Others st); [done|]. simpl length.
    case_bool_decide; lia.
  - intros [->|Hsz]; simpl length.
    + case_bool_decide; lia.
    + case_bool_decide; [lia|]. right. lia.
Qed.

(** A partition into no shard fails at the first vertex. *)
Lemma partition_zero {A : Type} (g : gmap Z A) (order : list Z) :
  1 ≤ size g → range_order g order → partition 0 g order = None.
Proof.
  intros Hsz Hord. pose proof (range_order_length _ _ Hord) as Hlen.
  unfold partition. destruct order as [|k order]; [simpl in Hlen; lia|].
  destruct (proj1 (range_order_elem _ _ k Hord)) as [v Hv]; [left|].
  by rewrite (range_cons_Some _ _ v).
Qed.

(** What a master with a worker, two vertices or more and an accepting
    broker publishes. *)
Lemma legacyrun_WriteGraphToQueue_ok (order : list Z)
    (broker : nat → LegacyRun.Job → option error) (n : LegacyRun.Node) :
  let st := LegacyRun.State n in
  let K := length (Legacy.Others st) `min` (size (Legacy.Graph st) - 1) in
  LegacyRun.NodeRole n = LegacyRun.Master →
  Legacy.Others st ≠ [] →
  2 ≤ size (Legacy.Graph st) →
  range_order (Legacy.Graph st) order →
  (∀ idx job, broker idx job = None) →
  ∃ subGraphs,
    partition K (Legacy.Graph st) order = Some subGraphs ∧
    LegacyRun.WriteGraphToQueue order broker n
    = Ok (LegacyRun.mkNode
            (Legacy.mkState (Legacy.Graph st) (Legacy.C st) (Legacy.Threshold st) Map
                            (Legacy.Others st) (Legacy.Data st) (Z.of_nat K))
            LegacyRun.Master
            (LegacyRun.Work n ++ (LegacyRun.mapJob <$> subGraphs))
            (LegacyRun.Broadcasts n)) ∧
    length subGraphs = K ∧
    ∀ id v, Legacy.Graph st !! id = Some v →
      ∃ j sg, subGraphs !! j = Some sg ∧ sg !! id = Some v ∧
        ∀ j' sg', subGraphs !! j' = Some sg' → is_Some (sg' !! id) → j' = j.
Proof.
  intros st K Hrole Ho Hsz Hord Hb.
  destruct (proj1 (legacy_numberOfJobs_cases st) Ho Hsz) as [Hk HK]. fold K in Hk, HK.
  destruct (partition_spec K (Legacy.Graph st) order HK Hord)
    as (subs & Hpart & Hlen & Hspec).
  exists subs. split; [done|]. split; [|split; [done|]].
  - unfold LegacyRun.WriteGraphToQueue. rewrite Hrole. fold st. cbv zeta.
    rewrite Hk. rewrite bool_decide_eq_false_2 by lia. rewrite Nat2Z.id.
    rewrite Hpart. rewrite legacyrun_publish_ok by done. done.
  - intros id v Hv.
    assert (id ∈ order) as Hin by (apply (range_order_elem _ _ id Hord); eauto).
    apply list_elem_of_lookup in Hin as [p Hp].
    assert (p mod K < K) as Hlt by (apply Nat.mod_upper_bound; lia).
    destruct (lookup_lt_is_Some_2 subs (p mod K)) as [sg Hsg]; [lia|].
    exists (p mod K), sg. split; [done|]. split.
    + apply (Hspec _ _ _ _ Hsg). eauto.
    + intros j' sg' Hsg' [v' Hv'].
      apply (Hspec _ _ _ _ Hsg') in Hv' as (p' & Hp' & _ & Hmod).
      pose proof (range_order_NoDup _ _ Hord) as Hnd.
      assert (p' = p) as -> by (eapply NoDup_lookup; eauto). done.
Qed.

(** X21.  [WriteGraphToQueue] of the earlier revision does nothing on a
    worker.  On the master it panics exactly when there is no worker or the
    graph has fewer than two vertices (a negative length for [make], or an
    index out of range in the partition loop), whatever the broker does. *)
Theorem legacy_WriteGraphToQueue_panics_iff (order : list Z)
    (broker : nat → LegacyRun.Job → option error) (n : LegacyRun.Node) :
  range_order (Legacy.Graph (LegacyRun.State n)) order →
  (LegacyRun.NodeRole n = LegacyRun.Worker →
     LegacyRun.WriteGraphToQueue order broker n = Ok n) ∧
  (LegacyRun.NodeRole n = LegacyRun.Master →
     (LegacyRun.WriteGraphToQueue order broker n = Panic ↔
      Legacy.Others (LegacyRun.State n) = []
      ∨ size (Legacy.Graph (LegacyRun.State n)) ≤ 1)).
Proof.
  intros Hord. split.
  - intros Hrole. unfold LegacyRun.WriteGraphToQueue. by rewrite Hrole.
  - intros Hrole. unfold LegacyRun.WriteGraphToQueue. rewrite Hrole.
    set (st := LegacyRun.State n) in *. cbv zeta.
    destruct (legacy_numberOfJobs_cases st) as [Hbig Hsmall].
    split.
    + intros Hpanic.
      destruct (decide (Legacy.Others st = [])) as [|Ho]; [by left|].
      destruct (decide (size (Legacy.Graph st) ≤ 1)) as [|Hsz]; [by right|].
      exfalso. destruct Hbig as [Hk HK]; [done|lia|].
      rewrite Hk in Hpanic. rewrite bool_decide_eq_false_2 in Hpanic by lia.
      rewrite Nat2Z.id in Hpanic.
      destruct (partition_spec _ (Legacy.Graph st) order HK Hord)
        as (subs & Hpart & _). rewrite Hpart in Hpanic.
      destruct (LegacyRun.publish _ _ _ _) as [w [e|]]; discriminate.
    + intros Hcase. destruct (Hsmall Hcase) as [->|[-> Hsz]]; [done|].
      simpl. by rewrite partition_zero.
Qed.

(** A master without workers and with two vertices. *)
Lemma legacy_WriteGraphToQueue_panics_iff_witness :
  let n := legacyRunNode [] [1; 2]%Z 2 in
  (LegacyRun.NodeRole n = LegacyRun.Worker →
     LegacyRun.WriteGraphToQueue [2; 1]%Z legacyBroker n = Ok n) ∧
  (LegacyRun.NodeRole n = LegacyRun.Master →
     (LegacyRun.WriteGraphToQueue [2; 1]%Z legacyBroker n = Panic ↔
      Legacy.Others (LegacyRun.State n) = []
      ∨ size (Legacy.Graph (LegacyRun.State n)) ≤ 1)).
Proof.
  apply (legacy_WriteGraphToQueue_panics_iff [2; 1]%Z legacyBroker
           (legacyRunNode [] [1; 2]%Z 2)).
  unfold range_order. vm_compute. reflexivity.
Defined.

(** X22.  On a master with at least one worker and two vertices or more,
    with a broker that accepts every job, [WriteGraphToQueue] appends
    [min(|Others|, |Graph| - 1)] Map jobs to the work queue, stores that
    number in [Jobs] and enters phase Map; every vertex of the graph is in
    the Map data of exactly one of the new jobs, with its rank and its
    out-links. *)
Theorem legacy_WriteGraphToQueue_jobs_carry_ranks (order : list Z)
    (broker : nat → LegacyRun.Job → option error) (n : LegacyRun.Node) :
  LegacyRun.NodeRole n = LegacyRun.Master →
  Legacy.Others (LegacyRun.State n) ≠ [] →
  2 ≤ size (Legacy.Graph (LegacyRun.State n)) →
  range_order (Legacy.Graph (LegacyRun.State n)) order →
  (∀ idx job, broker idx job = None) →
  ∃ n' jobs,
    LegacyRun.WriteGraphToQueue order broker n = Ok n' ∧
    Legacy.Phase (LegacyRun.State n') = Map ∧
    Legacy.Graph (LegacyRun.State n') = Legacy.Graph (LegacyRun.State n) ∧
    LegacyRun.Work n' = LegacyRun.Work n ++ jobs ∧
    Legacy.Jobs (LegacyRun.State n') = Z.of_nat (length jobs) ∧
    length jobs = length (Legacy.Others (LegacyRun.State n))
                  `min` (size (Legacy.Graph (LegacyRun.State n)) - 1) ∧
    (∀ job, job ∈ jobs → LegacyRun.JobType job = 0%Z ∧ LegacyRun.ReduceData job = ∅) ∧
    ∀ id v, Legacy.Graph (LegacyRun.State n) !! id = Some v →
      ∃ j job, jobs !! j = Some job ∧
        LegacyRun.MapData job !! id
        = Some (LegacyRun.mkMapEntry (Legacy.Rank v) (Legacy.OutLinks v)) ∧
        ∀ j' job', jobs !! j' = Some job' →
          is_Some (LegacyRun.MapData job' !! id) → j' = j.
Proof.
  intros Hrole Ho Hsz Hord Hb.
  destruct (legacyrun_WriteGraphToQueue_ok order broker n Hrole Ho Hsz Hord Hb)
    as (subs & _ & Hrun & Hlen & Hcover).
  eexists _, (LegacyRun.mapJob <$> subs). split; [exact Hrun|]. simpl.
  rewrite length_fmap, Hlen. split_and!; try done.
  - intros job (sg & -> & _)%list_elem_of_fmap. done.
  - intros id v Hv. destruct (Hcover id v Hv) as (j & sg & Hj & Hsg & Huniq).
    exists j, (LegacyRun.mapJob sg). split_and!.
    + by rewrite list_lookup_fmap, Hj.
    + simpl. by rewrite lookup_fmap, Hsg.
    + intros j' job' Hj' Hin. rewrite list_lookup_fmap in Hj'.
      destruct (subs !! j') as [sg'|] eqn:Hsg'; [|done].
      injection Hj' as <-. simpl in Hin. rewrite lookup_fmap in Hin.
      apply (Huniq j' sg' Hsg'). by apply fmap_is_Some in Hin.
Qed.

(** One worker, two vertices. *)
Lemma legacy_WriteGraphToQueue_jobs_carry_ranks_witness :
  let n := legacyRunNode ["w1"] [1; 2]%Z 2 in
  ∃ n' jobs,
    LegacyRun.WriteGraphToQueue [2; 1]%Z legacyBroker n = Ok n' ∧
    Legacy.Phase (LegacyRun.State n') = Map ∧
    Legacy.Graph (LegacyRun.State n') = Legacy.Graph (LegacyRun.State n) ∧
    LegacyRun.Work n' = LegacyRun.Work n ++ jobs ∧
    Legacy.Jobs (LegacyRun.State n') = Z.of_nat (length jobs) ∧
    length jobs = length (Legacy.Others (LegacyRun.State n))
                  `min` (size (Legacy.Graph (LegacyRun.State n)) - 1) ∧
    (∀ job, job ∈ jobs → LegacyRun.JobType job = 0%Z ∧ LegacyRun.ReduceData job = ∅) ∧
    ∀ id v, Legacy.Graph (LegacyRun.State n) !! id = Some v →
      ∃ j job, jobs !! j = Some job ∧
        LegacyRun.MapData job !! id
        = Some (LegacyRun.mkMapEntry (Legacy.Rank v) (Legacy.OutLinks v)) ∧
        ∀ j' job', jobs !! j' = Some job' →
          is_Some (LegacyRun.MapData job' !! id) → j' = j.
Proof.
  apply (legacy_WriteGraphToQueue_jobs_carry_ranks [2; 1]%Z legacyBroker
           (legacyRunNode ["w1"] [1; 2]%Z 2)).
  - reflexivity.
  - discriminate.
  - vm_compute. lia.
  - unfold range_order. vm_compute. reflexivity.
  - reflexivity.
Defined.

(** ** The earlier revision of [masterConvergence] *)

(** Ranging over a map in one of its orders visits exactly its entries. *)
Lemma range_to_map {A : Type} (d : gmap Z A) (keys : list Z) :
  range_order d keys → list_to_map (range d keys) = d.
Proof.
  intros Hord.
  assert (∀ k, k ∈ keys → is_Some (d !! k)) as Hin.
  { intros k Hk. by apply (range_order_elem d keys k Hord). }
  apply map_eq. intros i. destruct (d !! i) as [v|] eqn:Hi.
  - apply elem_of_list_to_map_1.
    + rewrite range_fst by done. by eapply range_order_NoDup.
    + assert (i ∈ keys) as Hk by (apply (range_order_elem d keys i Hord); eauto).
      apply list_elem_of_lookup in Hk as [p Hp].
      apply (list_elem_of_lookup_2 _ p). by apply range_lookup.
  - apply not_elem_of_list_to_map_1. rewrite range_fst by done.
    intros Hk. apply Hin in Hk as [v Hv]. congruence.
Qed.

(** The compared value only reads the ranks of the vertices it visits. *)
Lemma legacyDelta_ext (g g' : gmap Z Legacy.GraphNode) entries : ∀ c,
  (∀ id, id ∈ entries.*1 → Legacy.Rank <$> g !! id = Legacy.Rank <$> g' !! id) →
  legacyDelta g entries c = legacyDelta g' entries c.
Proof.
  induction entries as [|[k r] rest IH]; intros c Hext; [done|].
  unfold legacyDelta. simpl. rewrite (Hext k) by (simpl; left).
  apply IH. intros id Hid. apply Hext. simpl. by right.
Qed.

(** The loop over the accumulator, when every entry names a vertex: it
    returns [legacyDelta] and the graph with the new rank at every vertex
    that has an entry, the other fields and vertices untouched. *)
Lemma legacy_commitRanks_spec entries : ∀ c g,
  NoDup entries.*1 →
  (∀ id, id ∈ entries.*1 → is_Some (g !! id)) →
  ∃ g', LegacyRun.commitRanks entries c g = Some (legacyDelta g entries c, g') ∧
    ∀ id, g' !! id =
      (λ v, Legacy.mkGraphNode
              (default (Legacy.Rank v) ((list_to_map entries : gmap Z float) !! id))
              (Legacy.EValue v) (Legacy.OutLinks v)) <$> g !! id.
Proof.
  induction entries as [|[k r] rest IH]; intros c g Hnd Hin.
  - exists g. split; [done|]. intros id. simpl. rewrite lookup_empty. simpl.
    destruct (g !! id) as [[]|]; done.
  - simpl in Hnd. apply NoDup_cons in Hnd as [Hk Hnd].
    destruct (Hin k) as [node Hnode]; [simpl; left|].
    simpl. rewrite Hnode.
    set (g1 := <[k := Legacy.mkGraphNode r (Legacy.EValue node) (Legacy.OutLinks node)]> g).
    destruct (IH (c + abs (r - Legacy.Rank node))%float g1 Hnd) as (g' & Hrun & Hg').
    { intros id Hid. unfold g1.
      destruct (decide (id = k)) as [->|Hne].
      - rewrite lookup_insert_eq. eauto.
      - rewrite lookup_insert_ne by done. apply Hin. simpl. by right. }
    exists g'. split.
    + rewrite Hrun. do 2 f_equal. simpl.
      apply legacyDelta_ext. intros id Hid. unfold g1.
      rewrite lookup_insert_ne by (intros ->; done). done.
    + intros id. rewrite Hg'. unfold g1.
      destruct (decide (id = k)) as [->|Hne].
      * rewrite !lookup_insert_eq, Hnode. simpl.
        by rewrite (not_elem_of_list_to_map_1 _ _ Hk).
      * rewrite !lookup_insert_ne by done. done.
Qed.

(** The loop panics as soon as an entry names no vertex. *)
Lemma legacy_commitRanks_stray entries : ∀ c g,
  (∃ id, id ∈ entries.*1 ∧ g !! id = None) →
  LegacyRun.commitRanks entries c g = None.
Proof.
  induction entries as [|[k r] rest IH]; intros c g (id & Hid & Hnone).
  - simpl in Hid. by apply elem_of_nil in Hid.
  - simpl. destruct (g !! k) as [node|] eqn:Hk; [|done].
    apply IH. exists id. simpl in Hid. apply elem_of_cons in Hid as [->|Hid].
    + congruence.
    + split; [done|]. rewrite lookup_insert_ne; [done|]. intros ->. congruence.
Qed.

(** X23.  The earlier [masterConvergence] panics when the accumulator holds
    a rank for an identifier that is not a vertex of the graph (the rank
    field of a nil vertex is read), whatever the order of the loop. *)
Theorem legacy_masterConvergence_stray_result_panics (keys order : list Z)
    (broker : nat → LegacyRun.Job → option error) (n : LegacyRun.Node) :
  range_order (Legacy.Data (LegacyRun.State n)) keys →
  (∃ id, is_Some (Legacy.Data (LegacyRun.State n) !! id)
         ∧ Legacy.Graph (LegacyRun.State n) !! id = None) →
  LegacyRun.masterConvergence keys order broker n = Panic.
Proof.
  intros Hkeys (id & Hdata & Hnone).
  unfold LegacyRun.masterConvergence. cbv zeta.
  rewrite legacy_commitRanks_stray; [done|].
  exists id. split; [|done]. rewrite range_fst.
  - by apply (range_order_elem _ _ id Hkeys).
  - intros k Hk. by apply (range_order_elem _ _ k Hkeys).
Qed.

(** X24.  On a master with at least one worker, two vertices or more, an
    accumulator that only names vertices and a broker that accepts every
    job, the earlier [masterConvergence] returns without error.  With
    [delta] the sum of [|newRank - oldRank|] over the accumulator: when
    [delta] exceeds the threshold, the work queue receives new Map jobs in
    which every vertex appears with the rank of the accumulator (its old
    rank if the accumulator has none) and its out-links, the phase is Map and
    no broadcast is started; otherwise the state becomes the zero state in
    phase Wait (graph, workers and accumulator are gone), the work queue is
    untouched and one broadcast is started. *)
Theorem legacy_masterConvergence_outcome (keys order : list Z)
    (broker : nat → LegacyRun.Job → option error) (n : LegacyRun.Node) :
  let st := LegacyRun.State n in
  let delta := legacyDelta (Legacy.Graph st) (range (Legacy.Data st) keys) 0%float in
  LegacyRun.NodeRole n = LegacyRun.Master →
  Legacy.Others st ≠ [] →
  2 ≤ size (Legacy.Graph st) →
  dom (Legacy.Data st) ⊆ dom (Legacy.Graph st) →
  range_order (Legacy.Data st) keys →
  range_order (Legacy.Graph st) order →
  (∀ idx job, broker idx job = None) →
  ∃ n', LegacyRun.masterConvergence keys order broker n = Ok n' ∧
    if (Legacy.Threshold st <? delta)%float then
      Legacy.Phase (LegacyRun.State n') = Map ∧
      Legacy.Others (LegacyRun.State n') = Legacy.Others st ∧
      LegacyRun.Broadcasts n' = LegacyRun.Broadcasts n ∧
      ∃ jobs, LegacyRun.Work n' = LegacyRun.Work n ++ jobs ∧
        Legacy.Jobs (LegacyRun.State n') = Z.of_nat (length jobs) ∧
        ∀ id v, Legacy.Graph st !! id = Some v →
          Legacy.Graph (LegacyRun.State n') !! id
          = Some (Legacy.mkGraphNode (default (Legacy.Rank v) (Legacy.Data st !! id))
                                     (Legacy.EValue v) (Legacy.OutLinks v)) ∧
          ∃ job, job ∈ jobs ∧
            LegacyRun.MapData job !! id
            = Some (LegacyRun.mkMapEntry
                      (default (Legacy.Rank v) (Legacy.Data st !! id))
                      (Legacy.OutLinks v))
    else
      LegacyRun.State n' = LegacyRun.waitState ∧
      LegacyRun.Work n' = LegacyRun.Work n ∧
      LegacyRun.Broadcasts n' = S (LegacyRun.Broadcasts n).
Proof.
  intros st delta Hrole Ho Hsz Hsub Hkeys Hord Hb.
  assert (∀ k, k ∈ keys → is_Some (Legacy.Data st !! k)) as Hin.
  { intros k Hk. by apply (range_order_elem _ _ k Hkeys). }
  destruct (legacy_commitRanks_spec (range (Legacy.Data st) keys) 0%float (Legacy.Graph st))
    as (g' & Hrun & Hg').
  { rewrite range_fst by done. by eapply range_order_NoDup. }
  { intros id Hid. rewrite range_fst in Hid by done.
    apply Hin in Hid. apply elem_of_dom. apply Hsub. by apply elem_of_dom. }
  rewrite (range_to_map _ _ Hkeys) in Hg'.
  assert (dom g' = dom (Legacy.Graph st)) as Hdom.
  { apply set_eq. intros id. rewrite !elem_of_dom, Hg'. by rewrite fmap_is_Some. }
  unfold LegacyRun.masterConvergence. fold st. cbv zeta. rewrite Hrun. fold delta.
  destruct (Legacy.Threshold st <? delta)%float.
  - set (n1 := LegacyRun.mkNode _ _ _ _).
    destruct (legacyrun_WriteGraphToQueue_ok order broker n1)
      as (subs & _ & Hw & Hlen & Hcover); try done.
    + simpl. by rewrite <- size_dom, Hdom, size_dom.
    + simpl. unfold range_order. by rewrite Hdom.
    + eexists. split; [exact Hw|]. simpl. split_and!; try done.
      exists (LegacyRun.mapJob <$> subs). split; [done|]. split.
      * rewrite length_fmap, Hlen. done.
      * intros id v Hv.
        assert (g' !! id = Some (Legacy.mkGraphNode
                  (default (Legacy.Rank v) (Legacy.Data st !! id))
                  (Legacy.EValue v) (Legacy.OutLinks v))) as Hnew.
        { by rewrite Hg', Hv. }
        split; [done|].
        destruct (Hcover id _ Hnew) as (j & sg & Hj & Hsg & _).
        exists (LegacyRun.mapJob sg). split.
        -- apply list_elem_of_fmap. exists sg. split; [done|].
           by eapply list_elem_of_lookup_2.
        -- simpl. by rewrite lookup_fmap, Hsg.
  - eexists. split; [done|]. done.
Qed.

(** One worker, two vertices at rank 0.5, accumulated rank 2 for both. *)
Lemma legacy_masterConvergence_outcome_witness :
  ∃ n', LegacyRun.masterConvergence [2; 1]%Z [2; 1]%Z legacyBroker
          (legacyRunNode ["w1"] [1; 2]%Z 2) = Ok n'
        ∧ Legacy.Phase (LegacyRun.State n') = Map
        ∧ length (LegacyRun.Work n') = 1.
Proof.
  destruct (legacy_masterConvergence_outcome [2; 1]%Z [2; 1]%Z legacyBroker
              (legacyRunNode ["w1"] [1; 2]%Z 2)) as (n' & Hrun & Hres).
  - reflexivity.
  - discriminate.
  - vm_compute. lia.
  - by_computation.
  - unfold range_order. vm_compute. reflexivity.
  - unfold range_order. vm_compute. reflexivity.
  - reflexivity.
  - exists n'. split; [exact Hrun|].
    vm_compute in Hrun. injection Hrun as <-. vm_compute. split; reflexivity.
Defined.

(** One vertex, and an accumulated rank for identifier 7, which is none. *)
Lemma legacy_masterConvergence_stray_result_panics_witness :
  LegacyRun.masterConvergence [7]%Z [1]%Z legacyBroker
    (LegacyRun.mkNode
       (Legacy.mkState {[1%Z := Legacy.mkGraphNode 0.5 0.5 []]} 0.5 0.5 Convergence
                       ["w1"] {[7%Z := 0.5%float]} 0)
       LegacyRun.Master [] 0) = Panic.
Proof.
  apply (legacy_masterConvergence_stray_result_panics [7]%Z [1]%Z legacyBroker).
  - unfold range_order. vm_compute. reflexivity.
  - exists 7%Z. split; [vm_compute; eauto | vm_compute; reflexivity].
Defined.

(** Four layer-1 nodes, the third of which cannot be reached: the first
    two are announced to, the third is recorded, the fourth is not. *)
Lemma Init_records_then_calls_witness :
  Init float thirdUnreachable acceptsAnnounce endpoints (firstNode [] [] []) [] =
    (setLayer1s float (take 3 endpoints) (firstNode [] [] []),
     (λ v, (v, lib.mkAnnounceMessage 1 (lib.mkConnectionInfo "first" 9)))
       <$> take 2 endpoints,
     Some "unreachable").
Proof.
  apply (proj2 (Init_records_then_calls thirdUnreachable acceptsAnnounce endpoints
                  (firstNode [] [] []) [])
               2 (lib.mkConnectionInfo "c" 3) "unreachable").
  - reflexivity.
  - left. reflexivity.
  - repeat constructor.
Defined.
